(** * kitwork/pipe: infix expressions to template pipelines

    A shallow embedding of the preprocessor (lexer, ternary desugarer,
    shunting-yard parser, pipeline generator, variable rewriter,
    orchestrator) and of the operator runtime (math.go), followed by the
    properties that were checked against it.

    Conventions.
    - A Go [string] is a byte sequence: it is a Rocq [string], whose
      characters are the 256 values of [ascii].
    - A Go slice used as a stack ([append] to push, [s[:len(s)-1]] to pop)
      is a list whose HEAD is the top of the stack.
    - A Go slice used as an output queue ([append] only) is a list in
      source order.
    - [float64] is the kernel's binary64 type [float].
    - A loop that may not end takes the number of iterations it is allowed
      and yields [None] when they are used up; the lemmas on [tokenize_loop]
      and [Preprocessor_loop] say when that happens for every number. *)

From Stdlib Require Import Bool Arith NArith ZArith List Ascii String Lia Floats Uint63.
Import ListNotations.

Local Open Scope list_scope.
Local Open Scope string_scope.

(** ** Bytes and the Go library functions the code calls *)

Module GoBytes.

Definition code (c : ascii) : N := N_of_ascii c.

Definition in_range (lo hi : N) (c : ascii) : bool :=
  (lo <=? code c)%N && (code c <=? hi)%N.

(** [unicode.IsDigit(rune(ch))] for a byte: the Latin-1 range has no
    decimal digit other than '0'..'9'. *)
Definition IsDigit (c : ascii) : bool := in_range 48 57 c.

(** [unicode.IsLetter(rune(ch))] for a byte read as a Latin-1 rune:
    A-Z, a-z, U+00AA, U+00B5, U+00BA, U+00C0-U+00D6, U+00D8-U+00F6,
    U+00F8-U+00FF. *)
Definition IsLetter (c : ascii) : bool :=
  in_range 65 90 c || in_range 97 122 c
  || (code c =? 170)%N || (code c =? 181)%N || (code c =? 186)%N
  || in_range 192 214 c || in_range 216 246 c || in_range 248 255 c.

(** [unicode.IsSpace(rune(ch))] for a byte read as a Latin-1 rune:
    '\t', '\n', '\v', '\f', '\r', ' ', U+0085, U+00A0. *)
Definition IsSpace (c : ascii) : bool :=
  in_range 9 13 c || (code c =? 32)%N || (code c =? 133)%N || (code c =? 160)%N.

(** The regexp class [\w] of Go's RE2 syntax: [0-9A-Za-z_]. *)
Definition IsWord (c : ascii) : bool :=
  in_range 48 57 c || in_range 65 90 c || in_range 97 122 c || (code c =? 95)%N.

(** [strings.ContainsRune(set, rune(ch))] for an ASCII [set]. *)
Fixpoint ContainsByte (set : string) (c : ascii) : bool :=
  match set with
  | EmptyString => false
  | String d set' => Ascii.eqb c d || ContainsByte set' c
  end.

(** [strings.ContainsAny(s, chars)] for an ASCII [chars]. *)
Fixpoint ContainsAny (s chars : string) : bool :=
  match s with
  | EmptyString => false
  | String c s' => ContainsByte chars c || ContainsAny s' chars
  end.

(** [strings.HasPrefix(s, p)]. *)
Fixpoint HasPrefix (s p : string) {struct p} : bool :=
  match p, s with
  | EmptyString, _ => true
  | String _ _, EmptyString => false
  | String a p', String b s' => Ascii.eqb a b && HasPrefix s' p'
  end.

(** [s[:n]] and [s[n:]]; the code never slices out of range. *)
Fixpoint take (n : nat) (s : string) : string :=
  match n, s with
  | S n', String c s' => String c (take n' s')
  | _, _ => EmptyString
  end.

Fixpoint drop (n : nat) (s : string) : string :=
  match n, s with
  | S n', String _ s' => drop n' s'
  | _, _ => s
  end.

(** [s[lo:hi]]. *)
Definition slice (lo hi : nat) (s : string) : string := take (hi - lo) (drop lo s).

(** [strings.Index(s, sep)]: [None] stands for -1. *)
Fixpoint Index (s sep : string) : option nat :=
  if HasPrefix s sep then Some 0
  else match s with
       | EmptyString => None
       | String _ s' => option_map S (Index s' sep)
       end.

(** [strings.TrimPrefix(s, p)]. *)
Definition TrimPrefix (s p : string) : string :=
  if HasPrefix s p then drop (String.length p) s else s.

(** [strings.ReplaceAll(s, old, new)] for a non-empty [old]: the
    non-overlapping occurrences of [old], leftmost first.  [skip] counts the
    bytes of an occurrence that are still to be stepped over. *)
Fixpoint ReplaceAll_from (skip : nat) (s old new : string) : string :=
  match s with
  | EmptyString => EmptyString
  | String c s' =>
      match skip with
      | S k => ReplaceAll_from k s' old new
      | O =>
          if HasPrefix s old
          then new ++ ReplaceAll_from (String.length old - 1) s' old new
          else String c (ReplaceAll_from 0 s' old new)
      end
  end.

Definition ReplaceAll (s old new : string) : string := ReplaceAll_from 0 s old new.

(** [strings.TrimSpace(s)].  White space is Unicode's White_Space property,
    read through UTF-8: the six ASCII blanks and the encodings of U+0085,
    U+00A0, U+1680, U+2000-U+200A, U+2028, U+2029, U+202F, U+205F, U+3000.
    A byte that starts no such encoding is not white space. *)
Definition byte (n : nat) : ascii := ascii_of_nat n.

Definition spaceEncodings : list string :=
  map (fun n => String (byte n) EmptyString) [9; 10; 11; 12; 13; 32]
  ++ [String (byte 194) (String (byte 133) EmptyString);
      String (byte 194) (String (byte 160) EmptyString);
      String (byte 225) (String (byte 154) (String (byte 128) EmptyString))]
  ++ map (fun n => String (byte 226) (String (byte 128) (String (byte n) EmptyString)))
         [128; 129; 130; 131; 132; 133; 134; 135; 136; 137; 138; 168; 169; 175]
  ++ [String (byte 226) (String (byte 129) (String (byte 159) EmptyString));
      String (byte 227) (String (byte 128) (String (byte 128) EmptyString))].

(** The length of the white-space rune [s] starts with, if any. *)
Definition leadingSpace (s : string) : option nat :=
  option_map String.length (find (HasPrefix s) spaceEncodings).

Fixpoint TrimLeft_fuel (fuel : nat) (s : string) : string :=
  match fuel with
  | O => s
  | S fuel' =>
      match leadingSpace s with
      | Some n => TrimLeft_fuel fuel' (drop n s)
      | None => s
      end
  end.

Definition TrimLeft (s : string) : string := TrimLeft_fuel (String.length s) s.

Fixpoint rev_string (s : string) : string :=
  match s with
  | EmptyString => EmptyString
  | String c s' => rev_string s' ++ String c EmptyString
  end.

(** The length of the white-space rune [s] ends with, if any. *)
Definition trailingSpace (s : string) : option nat :=
  option_map String.length
    (find (fun e => HasPrefix (rev_string s) (rev_string e)) spaceEncodings).

Fixpoint TrimRight_fuel (fuel : nat) (s : string) : string :=
  match fuel with
  | O => s
  | S fuel' =>
      match trailingSpace s with
      | Some n => TrimRight_fuel fuel' (take (String.length s - n) s)
      | None => s
      end
  end.

Definition TrimRight (s : string) : string := TrimRight_fuel (String.length s) s.

Definition TrimSpace (s : string) : string := TrimRight (TrimLeft s).

End GoBytes.

Import GoBytes.

(** ** Tokens and the operator tables (part_000, lines 10-36) *)

Inductive TokenType : Type := Num | Var | Op | Paren | Tern.

Definition TokenType_eqb (x y : TokenType) : bool :=
  match x, y with
  | Num, Num | Var, Var | Op, Op | Paren, Paren | Tern, Tern => true
  | _, _ => false
  end.

Record Token : Type := mkToken { typ : TokenType; value : string }.

(** A Go map read with [m[k]]: an association list and its lookup. *)
Fixpoint lookup {A : Type} (k : string) (m : list (string * A)) : option A :=
  match m with
  | [] => None
  | (k', v) :: m' => if String.eqb k k' then Some v else lookup k m'
  end.

Definition opMap : list (string * string) :=
  [("+", "add"); ("-", "sub"); ("*", "mul"); ("/", "div");
   ("==", "eq"); ("!=", "ne"); (">", "gt"); ("<", "lt"); (">=", "gte"); ("<=", "lte");
   ("&&", "and"); ("||", "or"); ("!", "not"); ("??", "nullish");
   ("?", "tern")].

Definition precedence_table : list (string * Z) :=
  [("!", 6); ("*", 5); ("/", 5); ("+", 4); ("-", 4);
   (">", 3); ("<", 3); (">=", 3); ("<=", 3); ("==", 3); ("!=", 3);
   ("&&", 2); ("||", 1); ("??", 0)]%Z.

(** [precedence[sym]]: a missing key reads as the zero value. *)
Definition precedence (sym : string) : Z :=
  match lookup sym precedence_table with
  | Some p => p
  | None => 0%Z
  end.

(** ** Lexer (part_000, lines 39-108) *)

Definition twoCharOps : list string := ["=="; "!="; ">="; "<="; "&&"; "||"; "??"].

Definition isTwoCharOp (two : string) : bool := existsb (String.eqb two) twoCharOps.

(** The number loop of lines 82-87: the lexeme and the unread rest. *)
Fixpoint scanNumber (hasDot : bool) (s : string) : string * string :=
  match s with
  | EmptyString => (EmptyString, EmptyString)
  | String c s' =>
      if IsDigit c || (negb hasDot && Ascii.eqb c ".")
      then let (lex, rest) := scanNumber (hasDot || Ascii.eqb c ".") s' in
           (String c lex, rest)
      else (EmptyString, s)
  end.

(** The identifier loop of lines 95-97.  It starts AT the first byte, and
    '$' is not among the bytes it accepts. *)
Fixpoint scanIdent (s : string) : string * string :=
  match s with
  | EmptyString => (EmptyString, EmptyString)
  | String c s' =>
      if IsLetter c || IsDigit c || Ascii.eqb c "_" || Ascii.eqb c "."
      then let (lex, rest) := scanIdent s' in (String c lex, rest)
      else (EmptyString, s)
  end.

(** The loop [for i < n] of [tokenize]; [expr] is the unread [expr[i:]].
    One unit of fuel is one iteration; [None] is fuel exhausted. *)
Fixpoint tokenize_loop (fuel : nat) (expr : string) (tokens : list Token)
  : option (list Token) :=
  match fuel with
  | O => None
  | S fuel' =>
      match expr with
      | EmptyString => Some tokens
      | String ch rest =>
          if IsSpace ch then tokenize_loop fuel' rest tokens
          else if Ascii.eqb ch "(" || Ascii.eqb ch ")"
          then tokenize_loop fuel' rest (tokens ++ [mkToken Paren (String ch EmptyString)])
          else if match rest with
                  | String _ _ => isTwoCharOp (take 2 expr)
                  | EmptyString => false
                  end
          then tokenize_loop fuel' (drop 2 expr) (tokens ++ [mkToken Op (take 2 expr)])
          else if ContainsByte "+-*/><!:?" ch
          then tokenize_loop fuel' rest (tokens ++ [mkToken Op (String ch EmptyString)])
          else if IsDigit ch
          then let (lex, rest') := scanNumber false expr in
               tokenize_loop fuel' rest' (tokens ++ [mkToken Num lex])
          else if IsLetter ch || Ascii.eqb ch "_" || Ascii.eqb ch "$"
          then let (lex, rest') := scanIdent expr in
               tokenize_loop fuel' rest' (tokens ++ [mkToken Var lex])
          else tokenize_loop fuel' rest (tokens ++ [mkToken Var (String ch EmptyString)])
      end
  end.

(** Every iteration but the one that meets '$' consumes a byte, so
    [length expr + 1] iterations are enough whenever the loop ends. *)
Definition tokenize (expr : string) : option (list Token) :=
  tokenize_loop (S (String.length expr)) expr [].

(** ** Ternary desugarer (part_000, lines 112-174) *)

Definition isOp (sym : string) (t : Token) : bool :=
  TokenType_eqb (typ t) Op && String.eqb (value t) sym.

Fixpoint tokensToString (ts : list Token) : string :=
  match ts with
  | [] => EmptyString
  | [t] => value t
  | t :: ts' => value t ++ " " ++ tokensToString ts'
  end.

(** The scan [for ; j < len(tokens); j++] of lines 131-140 over
    [tokens[i+1:]]: the tokens before the matching ':' and those after it. *)
Fixpoint findColon (depth : nat) (ts : list Token) : option (list Token * list Token) :=
  match ts with
  | [] => None
  | t :: ts' =>
      if isOp "?" t then
        option_map (fun p => (t :: fst p, snd p)) (findColon (S depth) ts')
      else if isOp ":" t then
        match depth with
        | O => Some ([], ts')
        | S d => option_map (fun p => (t :: fst p, snd p)) (findColon d ts')
        end
      else option_map (fun p => (t :: fst p, snd p)) (findColon depth ts')
  end.

(** [out[len(out)-1]] and [out[:len(out)-1]]. *)
Definition unsnoc {A : Type} (l : list A) : option (list A * A) :=
  match rev l with
  | [] => None
  | x :: r => Some (rev r, x)
  end.

Fixpoint parseTernary_loop (tokens out : list Token) : list Token :=
  match tokens with
  | [] => out
  | tok :: rest =>
      if isOp "?" tok then
        match unsnoc out with
        | None => parseTernary_loop rest (out ++ [tok])
        | Some (out', cond) =>
            match findColon 0 rest with
            | None => ((out' ++ [cond]) ++ tok :: rest)%list
            | Some (trueBranch, falseBranch) =>
                let tb := tokensToString trueBranch in
                let fb := tokensToString falseBranch in
                (out' ++ [mkToken Tern ("tern(" ++ value cond ++ "," ++ tb ++ "," ++ fb ++ ")")])%list
            end
        end
      else parseTernary_loop rest (out ++ [tok])
  end.

Definition parseTernary (tokens : list Token) : list Token :=
  parseTernary_loop tokens [].

(** ** Shunting yard (part_000, lines 177-232) *)

(** Lines 192-198 and 216-222: pop to the output until a token whose value
    is "(" is on top, then drop that token. *)
Fixpoint popToParen (out stack : list Token) : list Token * list Token :=
  match stack with
  | [] => (out, [])
  | top :: stack' =>
      if String.eqb (value top) "(" then (out, stack')
      else popToParen (out ++ [top]) stack'
  end.

(** Lines 201-210: pop while the top is an [Op] of precedence >= [tok]'s. *)
Fixpoint popOps (tok : Token) (out stack : list Token) : list Token * list Token :=
  match stack with
  | [] => (out, [])
  | top :: stack' =>
      if TokenType_eqb (typ top) Op && (precedence (value tok) <=? precedence (value top))%Z
      then popOps tok (out ++ [top]) stack'
      else (out, stack)
  end.

(** One iteration of [for _, tok := range tokens] on the state (out, stack). *)
Definition rpnStep (st : list Token * list Token) (tok : Token) : list Token * list Token :=
  let (out, stack) := st in
  match typ tok with
  | Var | Num | Tern => ((out ++ [tok])%list, stack)
  | Op =>
      if String.eqb (value tok) "(" then (out, tok :: stack)
      else if String.eqb (value tok) ")" then popToParen out stack
      else let (out', stack') := popOps tok out stack in (out', tok :: stack')
  | Paren =>
      if String.eqb (value tok) "(" then (out, tok :: stack)
      else popToParen out stack
  end.

Definition rpnRun (st : list Token * list Token) (tokens : list Token)
  : list Token * list Token :=
  fold_left rpnStep tokens st.

(** Lines 227-230: the stack is emptied onto the output, top first. *)
Definition rpnFlush (st : list Token * list Token) : list Token :=
  (fst st ++ snd st)%list.

Definition toRPN (tokens : list Token) : list Token := rpnFlush (rpnRun ([], []) tokens).

(** ** Pipeline generator (part_000, lines 235-286) *)

(** The loop of lines 241-278 from the text stack [stack]; every
    [return original] of the source is a branch that yields [original]. *)
Fixpoint rpnToPipeline_loop (original : string) (stack : list string) (rpn : list Token)
  : string :=
  match rpn with
  | [] =>
      match stack with
      | [s] => s
      | _ => original
      end
  | tok :: rpn' =>
      match typ tok with
      | Var | Num => rpnToPipeline_loop original (value tok :: stack) rpn'
      | Op =>
          match lookup (value tok) opMap with
          | None => original
          | Some fn =>
              if String.eqb (value tok) "!" then
                match stack with
                | a :: stack' => rpnToPipeline_loop original ((a ++ " | " ++ fn) :: stack') rpn'
                | _ => original
                end
              else
                match stack with
                | b :: a :: stack' =>
                    rpnToPipeline_loop original ((a ++ " | " ++ fn ++ " " ++ b) :: stack') rpn'
                | _ => original
                end
          end
      | _ => original
      end
  end.

Definition rpnToPipeline (rpn : list Token) : string :=
  rpnToPipeline_loop (tokensToString rpn) [] rpn.

(** ** Variable reference rewriter (part_000, lines 314-342) *)

(** The pattern of line 315: a '$', one or more [\w], then any number of
    groups made of a '.' and one or more [\w].  Both repetitions are greedy
    and [\w] excludes '.', so the leftmost-first match at a '$' is the
    longest one.
    [refTail s] is the number of bytes of [s] the pattern still takes once
    one [\w] has been read. *)
Fixpoint refTail (s : string) : nat :=
  match s with
  | EmptyString => 0
  | String c s' =>
      if IsWord c then S (refTail s')
      else if Ascii.eqb c "." then
        match s' with
        | String c2 s2 => if IsWord c2 then S (S (refTail s2)) else 0
        | EmptyString => 0
        end
      else 0
  end.

(** The length of the match of the pattern's group at the start of [s]. *)
Definition matchRef (s : string) : option nat :=
  match s with
  | String c s' => if IsWord c then Some (S (refTail s')) else None
  | EmptyString => None
  end.

(** [re.FindAllStringIndex(expr, -1)]: the non-overlapping matches, leftmost
    first, as [(start, end)].  [pos] is the offset of [s] in [expr], [skip]
    the bytes of the last match that are still to be stepped over. *)
Fixpoint findAllRefs (skip pos : nat) (s : string) : list (nat * nat) :=
  match s with
  | EmptyString => []
  | String c s' =>
      match skip with
      | S k => findAllRefs k (S pos) s'
      | O =>
          if Ascii.eqb c "$" then
            match matchRef s' with
            | Some n => (pos, pos + 1 + n) :: findAllRefs n (S pos) s'
            | None => findAllRefs 0 (S pos) s'
            end
          else findAllRefs 0 (S pos) s'
      end
  end.

Definition FindAllStringIndex (expr : string) : list (nat * nat) := findAllRefs 0 0 expr.

(** One iteration of [for _, pos := range matches] on the state (out, last). *)
Definition replaceStep (expr : string) (st : string * nat) (pos : nat * nat) : string * nat :=
  let (out, last) := st in
  let (start, end_) := pos in
  let out := out ++ slice last start expr in
  let ref := slice start end_ expr in
  let key := TrimPrefix ref "$" in
  let after := if (end_ <? String.length expr)%nat then drop end_ expr else EmptyString in
  if HasPrefix after ":=" || HasPrefix after "=" || HasPrefix after ":"
  then (out ++ ref, end_)
  else (out ++ "Vars." ++ key, end_).

Definition replaceVars (expr : string) : string :=
  match FindAllStringIndex expr with
  | [] => expr
  | matches =>
      let (out, last) := fold_left (replaceStep expr) matches (EmptyString, 0) in
      out ++ drop last expr
  end.

(** ** Orchestrator (part_000, lines 345-385) *)

(** Lines 363-380: what one placeholder's interior becomes.  [None] when the
    lexer does not return. *)
Definition convertPlaceholder (interior : string) : option string :=
  let expr := replaceVars (TrimSpace interior) in
  if ContainsAny expr "+-*/><=!&|?:" then
    match tokenize expr with
    | None => None
    | Some tokens =>
        let tokens := parseTernary tokens in
        let rpn := toRPN tokens in
        let newExpr := rpnToPipeline rpn in
        let newExpr := ReplaceAll newExpr "Vars." "$.Vars." in
        Some ("{{ " ++ newExpr ++ " }}")
    end
  else
    let expr := ReplaceAll expr "Vars." "$.Vars." in
    Some ("{{ " ++ expr ++ " }}").

(** The loop [for start < len(tmpl)]; [tmpl] is the unread [tmpl[start:]],
    the only part of the template the body reads.  One unit of fuel is one
    iteration; [None] is fuel exhausted or a lexer that did not return. *)
Fixpoint Preprocessor_loop (fuel : nat) (tmpl result : string) : option string :=
  match fuel with
  | O => None
  | S fuel' =>
      match tmpl with
      | EmptyString => Some result
      | String _ _ =>
          match Index tmpl "{{" with
          | None => Some (result ++ tmpl)
          | Some idx =>
              let result := result ++ take idx tmpl in
              let opened := drop idx tmpl in
              match Index opened "}}" with
              | None => Some (result ++ opened)
              | Some endIdx =>
                  match convertPlaceholder (slice 2 endIdx opened) with
                  | None => None
                  | Some text =>
                      Preprocessor_loop fuel' (drop (endIdx + 2) opened) (result ++ text)
                  end
              end
          end
      end
  end.

(** An iteration that goes on consumes at least the four bytes of the two
    markers, so [length tmpl + 1] iterations are enough. *)
Definition Preprocessor (tmpl : string) : option string :=
  Preprocessor_loop (S (String.length tmpl)) tmpl EmptyString.

(** The expression-level pass of lines 371-374. *)
Definition toPipeline (expr : string) : option string :=
  option_map (fun tokens => rpnToPipeline (toRPN (parseTernary tokens))) (tokenize expr).

(** ** Operator runtime (math.go) *)

(** A [reflect.Value] as far as math.go inspects one: the invalid (zero)
    Value, or a value of kind bool, int, float64 or string. *)
Inductive Value : Type :=
| VInvalid
| VBool (x : bool)
| VInt (z : Z)
| VFloat (f : float)
| VString (s : string).

(** A call either returns or panics. *)
Inductive Result (A : Type) : Type :=
| Ok (a : A)
| Panic (msg : string).
Arguments Ok {A} a.
Arguments Panic {A} msg.

Definition bind {A B : Type} (r : Result A) (k : A -> Result B) : Result B :=
  match r with
  | Ok a => k a
  | Panic msg => Panic msg
  end.

Notation "x <- r ;; k" := (bind r (fun x => k))
  (at level 61, r at next level, right associativity).

(** [reflect.Value.IsValid]. *)
Definition IsValid (v : Value) : bool :=
  match v with
  | VInvalid => false
  | _ => true
  end.

(** [reflect.Value.IsZero]: whether [v] is the zero value of its type; the
    reflect package documents that it panics on the invalid Value.  A
    float64 is compared with zero by [==], as Go 1.22 and later do. *)
Definition IsZero (v : Value) : Result bool :=
  match v with
  | VInvalid => Panic "reflect: call of reflect.Value.IsZero on zero Value"
  | VBool x => Ok (negb x)
  | VInt z => Ok (z =? 0)%Z
  | VFloat f => Ok (PrimFloat.eqb f 0%float)
  | VString s => Ok (String.eqb s EmptyString)
  end.

(** [vals[i]]: an index out of range panics. *)
Definition index (vals : list Value) (i : nat) : Result Value :=
  match nth_error vals i with
  | Some v => Ok v
  | None => Panic "index out of range"
  end.

(** Modelled from the spec: [RV] is called by math.go and defined in a file
    that is not part of the sources; it wraps a float64 result as a Value. *)
Definition RV (f : float) : Value := VFloat f.

Section Runtime.

(** [toFloatRV] is called by math.go and defined in a file that is not part
    of the sources: the coercion of an operand to float64 is a parameter. *)
Variable toFloatRV : Value -> float.

(** Lines 5-17.  [left] starts as the last operand; the loop folds the
    operands before it, in order. *)
Definition Add (vals : list Value) : Value :=
  match unsnoc vals with
  | None => RV 0%float
  | Some (prev, last) =>
      RV (fold_left (fun left v => PrimFloat.add left (toFloatRV v)) prev (toFloatRV last))
  end.

(** Lines 19-31. *)
Definition Sub (vals : list Value) : Value :=
  match unsnoc vals with
  | None => RV 0%float
  | Some (prev, last) =>
      RV (fold_left (fun left v => PrimFloat.sub left (toFloatRV v)) prev (toFloatRV last))
  end.

(** Lines 33-43. *)
Definition Mul (vals : list Value) : Value :=
  match unsnoc vals with
  | None => RV 0%float
  | Some (prev, last) =>
      RV (fold_left (fun left v => PrimFloat.mul left (toFloatRV v)) prev (toFloatRV last))
  end.

(** The loop of Div (lines 51-58), with its early return on a divisor equal
    to zero. *)
Fixpoint divLoop (left : float) (prev : list Value) : Value :=
  match prev with
  | [] => RV left
  | v :: prev' =>
      let d := toFloatRV v in
      if PrimFloat.eqb d 0%float then RV 0%float
      else divLoop (PrimFloat.div left d) prev'
  end.

(** Lines 45-60. *)
Definition Div (vals : list Value) : Value :=
  match unsnoc vals with
  | None => RV 0%float
  | Some (prev, last) => divLoop (toFloatRV last) prev
  end.

(** Lines 62-67.  Go's [||] evaluates [vals[0].IsZero()] first. *)
Definition Nullish (vals : list Value) : Result Value :=
  v0 <- index vals 0 ;;
  z <- IsZero v0 ;;
  if z || negb (IsValid v0) then index vals 1 else Ok v0.

(** Lines 69-84. *)
Definition Ternary (vals : list Value) : Result Value :=
  cond <- index vals 0 ;;
  let ok := match cond with
            | VBool x => x
            | _ => negb (PrimFloat.eqb (toFloatRV cond) 0%float)
            end in
  if ok then index vals 1 else index vals 2.

End Runtime.

(** ** The rendering engine, as far as the properties need it *)

Section Engine.

Variable toFloatRV : Value -> float.

(** How the engine reads the text of an operand as a value: a parameter. *)
Variable operand : string -> Value.

(** The pieces of [s] between the bytes [sep]. *)
Fixpoint splitOn (sep : ascii) (s : string) : list string :=
  match s with
  | EmptyString => [EmptyString]
  | String c s' =>
      if Ascii.eqb c sep then EmptyString :: splitOn sep s'
      else match splitOn sep s' with
           | h :: t => String c h :: t
           | [] => [String c EmptyString]
           end
  end.

Definition nonEmpty (s : string) : bool := negb (String.eqb s EmptyString).

(** The space-separated words of a stage. *)
Definition Fields (s : string) : list string := filter nonEmpty (splitOn " " s).

(** Modelled from the spec: the registry of the rendering engine is not
    part of the sources.  Section 6 has it map the function names of the
    operator table to the runtime functions; the arithmetic ones are those
    of math.go. *)
Definition callOp (fn : string) (args : list Value) : option Value :=
  if String.eqb fn "add" then Some (Add toFloatRV args)
  else if String.eqb fn "sub" then Some (Sub toFloatRV args)
  else if String.eqb fn "mul" then Some (Mul toFloatRV args)
  else if String.eqb fn "div" then Some (Div toFloatRV args)
  else None.

(** Modelled from the spec: one stage [fn arg ...] of a chain, run by the
    engine, which is not part of the sources.  By the accumulator
    convention of sections 4.6 and 6 the value accumulated so far is the
    function's trailing argument. *)
Definition evalStage (acc : option Value) (stage : list string) : option Value :=
  match acc, stage with
  | Some v, fn :: args => callOp fn (map operand args ++ [v])
  | _, _ => None
  end.

(** Modelled from the spec: the engine that runs the generated text is not
    part of the sources.  Section 6 gives the syntax
    [operand | functionName arg ...]; the stages are run left to right,
    each result feeding the next stage. *)
Definition evalPipeline (text : string) : option Value :=
  match map Fields (splitOn "|" text) with
  | [base] :: stages => fold_left evalStage stages (Some (operand base))
  | _ => None
  end.

End Engine.

(** The infix operation a symbol denotes on float64. *)
Definition infix (op : string) : option (float -> float -> float) :=
  if String.eqb op "+" then Some PrimFloat.add
  else if String.eqb op "-" then Some PrimFloat.sub
  else if String.eqb op "*" then Some PrimFloat.mul
  else if String.eqb op "/" then Some PrimFloat.div
  else None.

(** A host for closed examples: operands are decimal integers, read as
    kind int and coerced exactly (they are far below 2^53). *)
Module SampleHost.

Fixpoint decimal (acc : Z) (s : string) : option Z :=
  match s with
  | EmptyString => Some acc
  | String c s' =>
      if IsDigit c then decimal (10 * acc + (Z.of_N (code c) - 48)) s' else None
  end.

Definition operand (s : string) : Value :=
  match s with
  | EmptyString => VInvalid
  | _ => match decimal 0 s with
         | Some z => VInt z
         | None => VString s
         end
  end.

Definition toFloatRV (v : Value) : float :=
  match v with
  | VInt z =>
      if (z <? 0)%Z then PrimFloat.opp (PrimFloat.of_uint63 (Uint63.of_Z (- z)))
      else PrimFloat.of_uint63 (Uint63.of_Z z)
  | VFloat f => f
  | _ => 0%float
  end.

End SampleHost.

(** ** Notions the properties are stated with *)

(** What a host reads an operand text as, after coercion. *)
Definition reads (toFloatRV : Value -> float) (operand : string -> Value)
  (text : string) (x : float) : Prop :=
  toFloatRV (operand text) = x.

(** A coercion that returns a float64 operand as it is: what a stage's
    result, fed to the next stage, is read as. *)
Definition keeps_floats (toFloatRV : Value -> float) : Prop :=
  forall f, toFloatRV (RV f) = f.

(** Why a generation is given up. *)
Inductive Abort : Type := Underflow | UnknownOperator | FinalSize.

(** [aborts stack rpn why]: walking [rpn] from the text stack [stack], the
    generator pushes operands and applies operators until it meets an
    operator that is not in [opMap], an operator with too few operands on
    the stack, or the end of the sequence with a stack whose size is not 1.
    This follows the words of the abort rule, one constructor per
    condition and one per step that goes on. *)
Inductive aborts : list string -> list Token -> Abort -> Prop :=
| abort_unknown : forall stack tok rest,
    typ tok = Op -> lookup (value tok) opMap = None ->
    aborts stack (tok :: rest) UnknownOperator
| abort_unary : forall tok rest fn,
    typ tok = Op -> lookup (value tok) opMap = Some fn -> value tok = "!" ->
    aborts [] (tok :: rest) Underflow
| abort_binary : forall stack tok rest fn,
    typ tok = Op -> lookup (value tok) opMap = Some fn -> value tok <> "!" ->
    List.length stack < 2 ->
    aborts stack (tok :: rest) Underflow
| abort_final : forall stack,
    List.length stack <> 1 ->
    aborts stack [] FinalSize
| go_operand : forall stack tok rest why,
    typ tok = Var \/ typ tok = Num ->
    aborts (value tok :: stack) rest why ->
    aborts stack (tok :: rest) why
| go_unary : forall a stack tok rest fn why,
    typ tok = Op -> lookup (value tok) opMap = Some fn -> value tok = "!" ->
    aborts ((a ++ " | " ++ fn) :: stack) rest why ->
    aborts (a :: stack) (tok :: rest) why
| go_binary : forall x y stack tok rest fn why,
    typ tok = Op -> lookup (value tok) opMap = Some fn -> value tok <> "!" ->
    aborts ((x ++ " | " ++ fn ++ " " ++ y) :: stack) rest why ->
    aborts (y :: x :: stack) (tok :: rest) why.

(** A token that [toRPN] treats as a closing parenthesis: a [Paren] whose
    value is not "(", or an [Op] whose value is ")". *)
Definition closesParen (tok : Token) : bool :=
  match typ tok with
  | Paren => negb (String.eqb (value tok) "(")
  | Op => String.eqb (value tok) ")"
  | _ => false
  end.

(** No token whose value is "(" is on the stack. *)
Definition noOpenParen (stack : list Token) : bool :=
  forallb (fun t => negb (String.eqb (value t) "(")) stack.

(** The operator stack once [tokens] have been read. *)
Definition stackAfter (tokens : list Token) : list Token := snd (rpnRun ([], []) tokens).

(** A numeric literal as the lexer reads one: a digit, then digits with at
    most one decimal point among them. *)
Fixpoint litTail (hasDot : bool) (s : string) : bool :=
  match s with
  | EmptyString => true
  | String c s' =>
      if IsDigit c then litTail hasDot s'
      else if Ascii.eqb c "." then negb hasDot && litTail true s'
      else false
  end.

Definition isLiteral (s : string) : bool :=
  match s with
  | String c s' => IsDigit c && litTail false s'
  | EmptyString => false
  end.

Definition litChar (c : ascii) : bool := IsDigit c || Ascii.eqb c ".".

Fixpoint allb (P : ascii -> bool) (s : string) : bool :=
  match s with
  | EmptyString => true
  | String c s' => P c && allb P s'
  end.

(** The text ends here, or goes on with a byte that no number takes. *)
Definition stops (rest : string) : bool :=
  match rest with
  | EmptyString => true
  | String c _ => negb (litChar c)
  end.

(** No byte of [s] is [x]. *)
Definition free (x : ascii) (s : string) : bool := allb (fun c => negb (Ascii.eqb c x)) s.

(** The text right after the match starts with [:=], [=] or [:]. *)
Definition declares (after : string) : bool :=
  HasPrefix after ":=" || HasPrefix after "=" || HasPrefix after ":".

(** ** splitTopLevel (part_000, lines 289-310) *)

(** [for _, r := range s] reads a string rune by rune and [WriteRune] writes
    a part rune by rune: the string is the sequence of the runes read, a
    part the sequence of the runes written, a rune its code point. *)
Definition rune : Type := N.

Definition openParen : rune := 40%N.
Definition closeParen : rune := 41%N.

(** One iteration: the level after the parenthesis test of lines 294-300. *)
Definition nextLevel (level : nat) (r : rune) : nat :=
  if (r =? openParen)%N then S level
  else if (r =? closeParen)%N then Nat.pred level
  else level.

(** The loop of lines 293-307 on the state (level, cur, parts). *)
Fixpoint splitTopLevel_loop (sep : rune) (level : nat) (cur : list rune)
  (parts : list (list rune)) (s : list rune) : list (list rune) :=
  match s with
  | [] => (parts ++ [cur])%list
  | r :: s' =>
      let level := nextLevel level r in
      if (r =? sep)%N && (level =? 0)%nat
      then splitTopLevel_loop sep level [] (parts ++ [cur]) s'
      else splitTopLevel_loop sep level (cur ++ [r]) parts s'
  end.

Definition splitTopLevel (s : list rune) (sep : rune) : list (list rune) :=
  splitTopLevel_loop sep 0 [] [] s.

(** [strings.Join(parts, string(sep))] on rune sequences. *)
Fixpoint joinRunes (sep : rune) (parts : list (list rune)) : list rune :=
  match parts with
  | [] => []
  | [p] => p
  | p :: ps => (p ++ sep :: joinRunes sep ps)%list
  end.

(** ** The separator loop of Thousand and pow10 (part_002, lines 104-130;
    part_001, lines 86-111) *)

(** [string(intPart[i])]: the conversion of a byte to a string gives the
    UTF-8 encoding of the code point of that value, one byte below 0x80 and
    two bytes from there on. *)
Definition byteString (c : ascii) : string :=
  if (code c <? 128)%N then String c EmptyString
  else String (ascii_of_N (192 + code c / 64))
         (String (ascii_of_N (128 + code c mod 64)) EmptyString).

(** The loop [for i := len(intPart) - 1; i >= 0; i--] on the state
    (count, result); [bytes] are the bytes still to be read, last first. *)
Fixpoint groupLoop (dot : string) (bytes : string) (count : nat) (result : string)
  : string :=
  match bytes with
  | EmptyString => result
  | String c bytes' =>
      let result :=
        if (0 <? count)%nat && (count mod 3 =? 0)%nat then dot ++ result else result in
      groupLoop dot bytes' (S count) (byteString c ++ result)
  end.

Definition groupThousands (dot intPart : string) : string :=
  groupLoop dot (rev_string intPart) 0 EmptyString.

(** [pow10]: [p] is multiplied by ten [n] times, no time when [n <= 0]. *)
Definition pow10 (n : Z) : float :=
  Nat.iter (Z.to_nat n) (fun p => PrimFloat.mul p 10%float) 1%float.

(** The integer a float64 is, when it is one. *)
Definition exactZ (f : float) : option Z :=
  match Prim2SF f with
  | S754_zero _ => Some 0%Z
  | S754_finite sign m e =>
      let v := if sign then (- Z.pos m)%Z else Z.pos m in
      if (0 <=? e)%Z then Some (v * 2 ^ e)%Z
      else if (Z.pos m mod 2 ^ (- e) =? 0)%Z then Some (v / 2 ^ (- e))%Z
      else None
  | _ => None
  end.

(** ** Further notions the properties are stated with *)



(** A token the parser sends straight to the output queue. *)
Definition isOperand (t : Token) : bool :=
  match typ t with
  | Var | Num | Tern => true
  | _ => false
  end.

(** A token the generator pushes as text. *)
Definition isAtom (t : Token) : bool :=
  match typ t with
  | Var | Num => true
  | _ => false
  end.

(** A binary operator of the operator table that is no parenthesis. *)
Definition isBinary (t : Token) : bool :=
  TokenType_eqb (typ t) Op
  && negb (String.eqb (value t) "!")
  && negb (String.eqb (value t) "(") && negb (String.eqb (value t) ")")
  && match lookup (value t) opMap with Some _ => true | None => false end.

(** The runtime name of an operator, empty when it has none. *)
Definition fnName (t : Token) : string :=
  match lookup (value t) opMap with
  | Some fn => fn
  | None => EmptyString
  end.

(** [x0 op1 x1 op2 x2 ...] in infix order, in postfix order and as the text
    of a chain; [links] are the pairs (op, x). *)
Definition infixChain (x0 : Token) (links : list (Token * Token)) : list Token :=
  x0 :: flat_map (fun l => [fst l; snd l]) links.

Definition postfixChain (x0 : Token) (links : list (Token * Token)) : list Token :=
  x0 :: flat_map (fun l => [snd l; fst l]) links.

Fixpoint chainText (acc : string) (links : list (Token * Token)) : string :=
  match links with
  | [] => acc
  | l :: links' => chainText (acc ++ " | " ++ fnName (fst l) ++ " " ++ value (snd l)) links'
  end.

(** Each operator binds no tighter than the one before it; [bound] is the
    precedence of the one before the first. *)
Fixpoint descending (bound : Z) (links : list (Token * Token)) : bool :=
  match links with
  | [] => true
  | l :: links' =>
      (precedence (value (fst l)) <=? bound)%Z
      && descending (precedence (value (fst l))) links'
  end.

(** No separator of [s] stands at level 0, when [s] is read from [level]. *)
Fixpoint depthOK (sep : rune) (level : nat) (s : list rune) : bool :=
  match s with
  | [] => true
  | r :: s' =>
      negb ((r =? sep)%N && (nextLevel level r =? 0)%nat)
      && depthOK sep (nextLevel level r) s'
  end.

(** The packed text of a ternary. *)
Definition ternText (cond : Token) (tb fb : list Token) : string :=
  "tern(" ++ value cond ++ "," ++ tokensToString tb ++ "," ++ tokensToString fb ++ ")".

(** An operator token the parser pushes on its stack. *)
Definition isInfixOp (t : Token) : bool :=
  TokenType_eqb (typ t) Op
  && negb (String.eqb (value t) "(") && negb (String.eqb (value t) ")").

(** Each operator of the chain binds no tighter than the one before it. *)
Definition descendingChain (links : list (Token * Token)) : bool :=
  match links with
  | [] => true
  | l :: links' => descending (precedence (value (fst l))) links'
  end.

(** * Properties *)

(** ** The pipeline on small inputs *)

Example ex_tokenize : tokenize "a.b >= 10 && !(x)" =
  Some [mkToken Var "a.b"; mkToken Op ">="; mkToken Num "10"; mkToken Op "&&";
        mkToken Op "!"; mkToken Paren "("; mkToken Var "x"; mkToken Paren ")"].
Proof. reflexivity. Qed.

Example ex_replaceVars : replaceVars "$a.b + $c:= 1 $ $d." = "Vars.a.b + $c:= 1 $ Vars.d.".
Proof. reflexivity. Qed.

Example ex_trim : TrimSpace (String (byte 9) " a b  ") = "a b".
Proof. reflexivity. Qed.

Example ex_paren : Preprocessor "x {{ (2 + 3) * 4 }} y" = Some "x {{ 2 | add 3 | mul 4 }} y".
Proof. reflexivity. Qed.

Example ex_plain : Preprocessor "<p>{{  $user.name  }}</p>" = Some "<p>{{ $.Vars.user.name }}</p>".
Proof. reflexivity. Qed.

Example ex_tern : Preprocessor "{{ 1 ? 2 : 3 }}" = Some "{{ tern(1,2,3) }}".
Proof. reflexivity. Qed.

Example ex_eval :
  evalPipeline SampleHost.toFloatRV SampleHost.operand "7 | mul 6 | sub 2" = Some (RV 40%float).
Proof. reflexivity. Qed.

(** ** Lists used as stacks and queues *)

Lemma unsnoc_snoc {A : Type} (l : list A) (x : A) : unsnoc (l ++ [x]) = Some (l, x).
Proof.
  unfold unsnoc. rewrite rev_app_distr. simpl. now rewrite rev_involutive.
Qed.

(** Two float64 results with different bits are different Values. *)
Ltac float_differ :=
  let H := fresh "H" in
  intro H;
  match type of H with
  | _ = RV ?y =>
      apply (f_equal (fun v => match v with
                               | VFloat f => PrimFloat.eqb f y
                               | _ => false
                               end)) in H;
      vm_compute in H; discriminate H
  end.

(** ** Left-associative chains *)

(** C3: preprocessing [10 - 3 - 2] gives the chain [10 | sub 3 | sub 2];
    Sub takes its last operand as the accumulator and subtracts the earlier
    ones from it in order, so a host that reads the three literals as 10, 3
    and 2 (and a float64 as itself) evaluates the chain to 5, which is not
    9. *)
Theorem C3_sub_chain_is_left_associative :
  forall (toFloatRV : Value -> float) (operand : string -> Value),
    keeps_floats toFloatRV ->
    reads toFloatRV operand "10" 10%float ->
    reads toFloatRV operand "3" 3%float ->
    reads toFloatRV operand "2" 2%float ->
    Preprocessor "{{ 10 - 3 - 2 }}" = Some "{{ 10 | sub 3 | sub 2 }}"
    /\ toPipeline "10 - 3 - 2" = Some "10 | sub 3 | sub 2"
    /\ (forall prev last,
          Sub toFloatRV (prev ++ [last])
          = RV (fold_left (fun acc v => PrimFloat.sub acc (toFloatRV v)) prev (toFloatRV last)))
    /\ evalPipeline toFloatRV operand "10 | sub 3 | sub 2" = Some (RV 5%float)
    /\ RV 5%float <> RV 9%float.
Proof.
  intros toFloatRV operand Hf H10 H3 H2. unfold reads in *.
  split; [reflexivity|]. split; [reflexivity|]. split; [|split].
  - intros prev last. unfold Sub. now rewrite unsnoc_snoc.
  - cbv [evalPipeline splitOn Fields map filter nonEmpty fold_left evalStage
         callOp Sub unsnoc rev app String.eqb Ascii.eqb
         Bool.eqb negb].
    rewrite H10, H3, Hf, H2. reflexivity.
  - float_differ.
Qed.

Lemma C3_sub_chain_is_left_associative_witness :
  Preprocessor "{{ 10 - 3 - 2 }}" = Some "{{ 10 | sub 3 | sub 2 }}"
  /\ evalPipeline SampleHost.toFloatRV SampleHost.operand "10 | sub 3 | sub 2"
     = Some (RV 5%float).
Proof.
  destruct (C3_sub_chain_is_left_associative SampleHost.toFloatRV SampleHost.operand)
    as (Hp & _ & _ & He & _); try reflexivity; [intro f; reflexivity|].
  split; [exact Hp | exact He].
Defined.

(** ** Precedence *)

(** C2: the parser orders [2 + 3 * 4] by precedence (RPN [2 3 4 * +]), but
    the generator pushes the right operand [3 | mul 4] as bare text, so the
    generated chain is [2 | add 3 | mul 4], the same text as for
    [(2 + 3) * 4]; run stage by stage, left to right, each result being the
    next stage's last operand, it yields 20 and not 14. *)
Theorem C2_precedence_lost_in_generated_chain :
  forall (toFloatRV : Value -> float) (operand : string -> Value),
    keeps_floats toFloatRV ->
    reads toFloatRV operand "2" 2%float ->
    reads toFloatRV operand "3" 3%float ->
    reads toFloatRV operand "4" 4%float ->
    option_map toRPN (option_map parseTernary (tokenize "2 + 3 * 4"))
    = Some [mkToken Num "2"; mkToken Num "3"; mkToken Num "4"; mkToken Op "*"; mkToken Op "+"]
    /\ Preprocessor "{{ 2 + 3 * 4 }}" = Some "{{ 2 | add 3 | mul 4 }}"
    /\ Preprocessor "{{ (2 + 3) * 4 }}" = Some "{{ 2 | add 3 | mul 4 }}"
    /\ evalPipeline toFloatRV operand "2 | add 3 | mul 4" = Some (RV 20%float)
    /\ RV 20%float <> RV 14%float.
Proof.
  intros toFloatRV operand Hf H2 H3 H4. unfold reads in *.
  repeat (split; [reflexivity|]). split.
  - cbv [evalPipeline splitOn Fields map filter nonEmpty fold_left evalStage
         callOp Add Mul unsnoc rev app String.eqb Ascii.eqb
         Bool.eqb negb].
    rewrite H2, H3, Hf, H4. reflexivity.
  - float_differ.
Qed.

Lemma C2_precedence_lost_in_generated_chain_witness :
  Preprocessor "{{ 2 + 3 * 4 }}" = Some "{{ 2 | add 3 | mul 4 }}"
  /\ evalPipeline SampleHost.toFloatRV SampleHost.operand "2 | add 3 | mul 4"
     = Some (RV 20%float).
Proof.
  destruct (C2_precedence_lost_in_generated_chain SampleHost.toFloatRV SampleHost.operand)
    as (_ & Hp & _ & He & _); try reflexivity; [intro f; reflexivity|].
  split; [exact Hp | exact He].
Defined.

(** ** Ternary pseudo-tokens in the generator *)

Lemma append_length (s t : string) :
  String.length (s ++ t) = String.length s + String.length t.
Proof. induction s as [|c s IH]; simpl; [reflexivity | now rewrite IH]. Qed.

(** C4: the generator's switch has no case for [Tern]; a Tern token takes
    the default branch, which returns the fallback text at once.  For the
    RPN [5, Tern t, +] the result is the space-joined [5 t +], never
    [5 | add t]. *)
Theorem C4_tern_token_aborts_generation :
  (forall original stack t rest,
      rpnToPipeline_loop original stack (mkToken Tern t :: rest) = original)
  /\ (forall t,
         rpnToPipeline [mkToken Num "5"; mkToken Tern t; mkToken Op "+"] = "5 " ++ t ++ " +")
  /\ (forall t,
         rpnToPipeline [mkToken Num "5"; mkToken Tern t; mkToken Op "+"] <> "5 | add " ++ t).
Proof.
  split; [reflexivity|]. split; [reflexivity|].
  intros t H. apply (f_equal String.length) in H.
  cbn in H. rewrite append_length in H. simpl in H. lia.
Qed.

(** ** Nullish *)

(** C6: for a valid first operand Nullish returns the second operand when
    the first is the zero value of its type and the first, untouched,
    otherwise; for the invalid Value the call to IsZero, which Go evaluates
    before [!IsValid()], panics, so nothing is returned. *)
Theorem C6_nullish_panics_on_invalid :
  (forall a b, IsValid a = true ->
      exists z, IsZero a = Ok z /\ Nullish [a; b] = Ok (if z then b else a))
  /\ (forall b, exists msg, Nullish [VInvalid; b] = Panic msg).
Proof.
  split.
  - intros a b Ha. destruct a; try discriminate; simpl;
      eexists; (split; [reflexivity|]); unfold Nullish; simpl;
      rewrite orb_false_r;
      match goal with |- (if ?c then _ else _) = _ => destruct c; reflexivity end.
  - intros b. eexists. reflexivity.
Qed.

Lemma C6_nullish_panics_on_invalid_witness :
  Nullish [VInt 0; VString "x"] = Ok (VString "x")
  /\ Nullish [VInt 7; VString "x"] = Ok (VInt 7).
Proof.
  split.
  - destruct (proj1 C6_nullish_panics_on_invalid (VInt 0) (VString "x") eq_refl)
      as (z & Hz & Hn).
    injection Hz as <-. exact Hn.
  - destruct (proj1 C6_nullish_panics_on_invalid (VInt 7) (VString "x") eq_refl)
      as (z & Hz & Hn).
    injection Hz as <-. exact Hn.
Defined.

(** ** Division by zero *)

Lemma divLoop_zero (toFloatRV : Value -> float) (prev : list Value) (d : Value) :
  In d prev -> PrimFloat.eqb (toFloatRV d) 0%float = true ->
  forall left, divLoop toFloatRV left prev = RV 0%float.
Proof.
  intros Hin Hd. induction prev as [|v prev IH]; [destruct Hin|].
  intros left. simpl.
  destruct (PrimFloat.eqb (toFloatRV v) 0%float) eqn:Ev; [reflexivity|].
  destruct Hin as [-> | Hin]; [congruence|]. now apply IH.
Qed.

(** C9: when an operand before the last one coerces to a float64 equal to
    zero, Div returns the float64 zero, whatever the other operands are; in
    particular [5 / 0] is preprocessed to [5 | div 0], which a host that
    reads the literal 0 as zero evaluates to 0.  Div is total: no call
    panics, and the result in these cases is not an infinity. *)
Theorem C9_div_by_zero_yields_zero :
  forall (toFloatRV : Value -> float),
    (forall prev last d,
        In d prev -> PrimFloat.eqb (toFloatRV d) 0%float = true ->
        Div toFloatRV (prev ++ [last]) = RV 0%float)
    /\ Preprocessor "{{ 5 / 0 }}" = Some "{{ 5 | div 0 }}"
    /\ (forall operand,
          PrimFloat.eqb (toFloatRV (operand "0")) 0%float = true ->
          evalPipeline toFloatRV operand "5 | div 0" = Some (RV 0%float))
    /\ RV 0%float <> RV infinity /\ RV 0%float <> RV neg_infinity.
Proof.
  intros toFloatRV. split; [|split; [reflexivity|split; [|split; float_differ]]].
  - intros prev last d Hin Hd. unfold Div. rewrite unsnoc_snoc.
    now apply divLoop_zero with d.
  - intros operand H0.
    cbv [evalPipeline splitOn Fields map filter nonEmpty fold_left evalStage
         callOp Div divLoop unsnoc rev app String.eqb Ascii.eqb Bool.eqb negb].
    now rewrite H0.
Qed.

Lemma C9_div_by_zero_yields_zero_witness :
  Div SampleHost.toFloatRV [VInt 2; VInt 0; VInt 5] = RV 0%float
  /\ evalPipeline SampleHost.toFloatRV SampleHost.operand "5 | div 0" = Some (RV 0%float).
Proof.
  destruct (C9_div_by_zero_yields_zero SampleHost.toFloatRV) as (Hd & _ & He & _).
  split.
  - apply (Hd [VInt 2; VInt 0] (VInt 5) (VInt 0)); [simpl; auto | reflexivity].
  - apply He. reflexivity.
Defined.

(** ** The generator's fallback *)

Lemma aborts_fallback (original : string) (stack : list string) (rpn : list Token)
  (why : Abort) :
  aborts stack rpn why -> rpnToPipeline_loop original stack rpn = original.
Proof.
  induction 1 as [stack tok rest Ht Hl | tok rest fn Ht Hl Hv
                 | stack tok rest fn Ht Hl Hv Hlen | stack Hlen
                 | stack tok rest why Ht _ IH | a stack tok rest fn why Ht Hl Hv _ IH
                 | x y stack tok rest fn why Ht Hl Hv _ IH]; cbn [rpnToPipeline_loop].
  - now rewrite Ht, Hl.
  - now rewrite Ht, Hl, Hv.
  - rewrite Ht, Hl. apply String.eqb_neq in Hv. rewrite Hv.
    destruct stack as [|y [|x stack]]; simpl in Hlen; try reflexivity; lia.
  - destruct stack as [|s [|s' stack]]; simpl in Hlen; try reflexivity; lia.
  - destruct Ht as [-> | ->]; exact IH.
  - now rewrite Ht, Hl, Hv.
  - rewrite Ht, Hl. apply String.eqb_neq in Hv. now rewrite Hv.
Qed.

(** C5: whenever the generator, started on an empty text stack, runs into
    a stack underflow, an operator symbol that the operator table does not
    have, or a final stack whose size is not 1, its result is the original
    RPN sequence joined with single spaces. *)
Theorem C5_abort_returns_original_text :
  forall (rpn : list Token) (why : Abort),
    aborts [] rpn why -> rpnToPipeline rpn = tokensToString rpn.
Proof.
  intros rpn why H. unfold rpnToPipeline. now apply aborts_fallback with why.
Qed.

Lemma C5_abort_returns_original_text_witness :
  rpnToPipeline [mkToken Num "1"; mkToken Op "+"] = "1 +"
  /\ rpnToPipeline [mkToken Var "x"; mkToken Num "2"; mkToken Op ":"] = "x 2 :"
  /\ rpnToPipeline [mkToken Var "x"; mkToken Var "y"; mkToken Op "!"] = "x y !".
Proof.
  split; [|split].
  - apply (C5_abort_returns_original_text [mkToken Num "1"; mkToken Op "+"] Underflow).
    apply go_operand; [right; reflexivity|].
    apply abort_binary with "add"; [reflexivity | reflexivity | discriminate | simpl; lia].
  - apply (C5_abort_returns_original_text
             [mkToken Var "x"; mkToken Num "2"; mkToken Op ":"] UnknownOperator).
    apply go_operand; [left; reflexivity|].
    apply go_operand; [right; reflexivity|].
    apply abort_unknown; reflexivity.
  - apply (C5_abort_returns_original_text
             [mkToken Var "x"; mkToken Var "y"; mkToken Op "!"] FinalSize).
    apply go_operand; [left; reflexivity|].
    apply go_operand; [left; reflexivity|].
    apply go_unary with "not"; [reflexivity | reflexivity | reflexivity |].
    apply abort_final. simpl. lia.
Defined.

(** ** An unmatched closing parenthesis *)

Lemma rpnRun_app (st : list Token * list Token) (l1 l2 : list Token) :
  rpnRun st (l1 ++ l2) = rpnRun (rpnRun st l1) l2.
Proof. unfold rpnRun. apply fold_left_app. Qed.

Lemma popToParen_unmatched (out stack : list Token) :
  noOpenParen stack = true -> popToParen out stack = ((out ++ stack)%list, []).
Proof.
  revert out. induction stack as [|top stack IH]; intros out H; simpl.
  - now rewrite app_nil_r.
  - simpl in H. apply andb_prop in H as [Htop Hrest].
    apply negb_true_iff in Htop. rewrite Htop, IH by assumption.
    now rewrite <- app_assoc.
Qed.

(** The output queue is only appended to: what is already in it is a prefix
    of every later queue and influences nothing. *)
Lemma popToParen_prefix (pre out stack : list Token) :
  popToParen (pre ++ out) stack
  = ((pre ++ fst (popToParen out stack))%list, snd (popToParen out stack)).
Proof.
  revert out. induction stack as [|top stack IH]; intros out; simpl; [reflexivity|].
  destruct (String.eqb (value top) "("); [reflexivity|].
  now rewrite <- app_assoc, IH.
Qed.

Lemma popOps_prefix (tok : Token) (pre out stack : list Token) :
  popOps tok (pre ++ out) stack
  = ((pre ++ fst (popOps tok out stack))%list, snd (popOps tok out stack)).
Proof.
  revert out. induction stack as [|top stack IH]; intros out; simpl; [reflexivity|].
  destruct (TokenType_eqb (typ top) Op && (precedence (value tok) <=? precedence (value top))%Z);
    [|reflexivity].
  now rewrite <- app_assoc, IH.
Qed.

Lemma rpnStep_prefix (pre out stack : list Token) (tok : Token) :
  rpnStep ((pre ++ out)%list, stack) tok
  = ((pre ++ fst (rpnStep (out, stack) tok))%list, snd (rpnStep (out, stack) tok)).
Proof.
  unfold rpnStep. destruct (typ tok).
  - simpl. now rewrite app_assoc.
  - simpl. now rewrite app_assoc.
  - destruct (String.eqb (value tok) "("); [reflexivity|].
    destruct (String.eqb (value tok) ")"); [apply popToParen_prefix|].
    rewrite popOps_prefix. now destruct (popOps tok out stack).
  - destruct (String.eqb (value tok) "("); [reflexivity|]. apply popToParen_prefix.
  - simpl. now rewrite app_assoc.
Qed.

Lemma rpnRun_prefix (tokens pre out stack : list Token) :
  rpnRun ((pre ++ out)%list, stack) tokens
  = ((pre ++ fst (rpnRun (out, stack) tokens))%list, snd (rpnRun (out, stack) tokens)).
Proof.
  revert out stack. induction tokens as [|tok tokens IH]; intros out stack; [reflexivity|].
  unfold rpnRun in *. cbn [fold_left]. rewrite rpnStep_prefix.
  destruct (rpnStep (out, stack) tok) as [out' stack']. cbn [fst snd]. apply IH.
Qed.

(** Reading on from an empty operator stack. *)
Lemma toRPN_from (out tokens : list Token) :
  rpnFlush (rpnRun (out, []) tokens) = (out ++ toRPN tokens)%list.
Proof.
  rewrite <- (app_nil_r out) at 1. rewrite rpnRun_prefix.
  unfold toRPN, rpnFlush. cbn [fst snd]. now rewrite <- app_assoc.
Qed.

Lemma rpnStep_closesParen (out stack : list Token) (tok : Token) :
  closesParen tok = true -> rpnStep (out, stack) tok = popToParen out stack.
Proof.
  unfold closesParen, rpnStep. destruct (typ tok); try discriminate.
  - intros H. rewrite H.
    destruct (String.eqb (value tok) "(") eqn:E; [|reflexivity].
    apply String.eqb_eq in E. apply String.eqb_eq in H. congruence.
  - intros H. apply negb_true_iff in H. now rewrite H.
Qed.

(** C8, as the code has it: a closing parenthesis met while no "(" is on
    the operator stack empties that stack onto the output queue and is then
    dropped, so the RPN of the whole sequence is the RPN of what precedes
    the parenthesis followed by the RPN of what follows it; it is the RPN
    of the sequence without the parenthesis when the operator stack is
    empty at that point. *)
Theorem C8_unmatched_close_flushes_stack :
  forall (pre post : list Token) (tok : Token),
    closesParen tok = true ->
    noOpenParen (stackAfter pre) = true ->
    rpnRun ([], []) (pre ++ [tok]) = (toRPN pre, [])
    /\ toRPN (pre ++ tok :: post) = (toRPN pre ++ toRPN post)%list
    /\ (stackAfter pre = [] -> toRPN (pre ++ tok :: post) = toRPN (pre ++ post)).
Proof.
  intros pre post tok Htok Hstack. unfold stackAfter in Hstack.
  assert (Hflush : rpnRun ([], []) (pre ++ [tok]) = (toRPN pre, [])).
  { rewrite rpnRun_app. unfold toRPN, rpnFlush.
    destruct (rpnRun ([], []) pre) as [out stack]. cbn [fst snd] in *.
    change (rpnRun (out, stack) [tok]) with (rpnStep (out, stack) tok).
    rewrite rpnStep_closesParen by assumption. now apply popToParen_unmatched. }
  assert (Hsplit : toRPN (pre ++ tok :: post) = (toRPN pre ++ toRPN post)%list).
  { replace (pre ++ tok :: post)%list with ((pre ++ [tok]) ++ post)%list
      by (now rewrite <- app_assoc).
    unfold toRPN at 1. rewrite rpnRun_app, Hflush. apply toRPN_from. }
  repeat split; try assumption.
  intros Hempty. rewrite Hsplit. symmetry. unfold toRPN at 1. rewrite rpnRun_app.
  assert (Hpre : rpnRun ([], []) pre = (toRPN pre, [])).
  { unfold toRPN, rpnFlush, stackAfter in *.
    destruct (rpnRun ([], []) pre) as [out stack]. cbn [fst snd] in *.
    subst stack. now rewrite app_nil_r. }
  rewrite Hpre. apply toRPN_from.
Qed.

Lemma C8_unmatched_close_flushes_stack_witness :
  toRPN [mkToken Num "1"; mkToken Op "+"; mkToken Num "2"; mkToken Paren ")";
         mkToken Op "*"; mkToken Num "3"]
  = [mkToken Num "1"; mkToken Num "2"; mkToken Op "+"; mkToken Num "3"; mkToken Op "*"].
Proof.
  exact (proj1 (proj2 (C8_unmatched_close_flushes_stack
           [mkToken Num "1"; mkToken Op "+"; mkToken Num "2"]
           [mkToken Op "*"; mkToken Num "3"] (mkToken Paren ")") eq_refl eq_refl))).
Defined.

(** Counterexample to C8 read as a no-op: with [+] waiting on the operator
    stack, the unmatched parenthesis of [1 + 2 ) * 3] sends it to the output
    before [*] is read, and the RPN differs from that of [1 + 2 * 3]. *)
Lemma C8_unmatched_close_is_not_a_noop :
  ~ (forall (pre post : list Token) (tok : Token),
        closesParen tok = true ->
        noOpenParen (stackAfter pre) = true ->
        toRPN (pre ++ tok :: post) = toRPN (pre ++ post)).
Proof.
  intros H.
  specialize (H [mkToken Num "1"; mkToken Op "+"; mkToken Num "2"]
                [mkToken Op "*"; mkToken Num "3"] (mkToken Paren ")") eq_refl eq_refl).
  discriminate H.
Qed.

(** ** Byte strings *)

Lemma append_nil_r (s : string) : s ++ EmptyString = s.
Proof. induction s as [|c s IH]; simpl; [reflexivity | now rewrite IH]. Qed.

Lemma append_assoc (s t u : string) : (s ++ t) ++ u = s ++ (t ++ u).
Proof. induction s as [|c s IH]; simpl; [reflexivity | now rewrite IH]. Qed.

Lemma take_drop (n : nat) (s : string) : take n s ++ drop n s = s.
Proof.
  revert s. induction n as [|n IH]; intros [|c s]; simpl; try reflexivity.
  now rewrite IH.
Qed.

Lemma take_app (n : nat) (s t : string) :
  n <= String.length s -> take n (s ++ t) = take n s.
Proof.
  revert s. induction n as [|n IH]; intros [|c s] H; simpl in *; try reflexivity; try lia.
  rewrite IH by lia. reflexivity.
Qed.

Lemma drop_app (n : nat) (s t : string) :
  n <= String.length s -> drop n (s ++ t) = drop n s ++ t.
Proof.
  revert s. induction n as [|n IH]; intros [|c s] H; simpl in *; try reflexivity; try lia.
  apply IH. lia.
Qed.

Lemma drop_length (n : nat) (s : string) :
  String.length (drop n s) = String.length s - n.
Proof.
  revert s. induction n as [|n IH]; intros [|c s]; simpl; try reflexivity; try lia.
  apply IH.
Qed.

Lemma HasPrefix_app (s t p : string) :
  String.length p <= String.length s -> HasPrefix (s ++ t) p = HasPrefix s p.
Proof.
  revert s. induction p as [|a p IH]; intros [|c s] H; simpl in *; try reflexivity; try lia.
  rewrite IH by lia. reflexivity.
Qed.

Lemma HasPrefix_length (s p : string) :
  HasPrefix s p = true -> String.length p <= String.length s.
Proof.
  revert s. induction p as [|a p IH]; intros [|c s] H; simpl in *; try lia; try discriminate.
  apply andb_prop in H as [_ H]. apply IH in H. lia.
Qed.

Lemma Index_bound (s sep : string) (i : nat) :
  Index s sep = Some i -> i + String.length sep <= String.length s.
Proof.
  revert i. induction s as [|c s IH]; intros i; simpl.
  - destruct (HasPrefix EmptyString sep) eqn:E; [|discriminate].
    intros [= <-]. apply HasPrefix_length in E. simpl in *. lia.
  - destruct (HasPrefix (String c s) sep) eqn:E.
    + intros [= <-]. apply HasPrefix_length in E. simpl in *. lia.
    + destruct (Index s sep) as [j|] eqn:Ej; [|discriminate].
      intros [= <-]. specialize (IH j eq_refl). simpl. lia.
Qed.

Lemma Index_app (s t sep : string) (i : nat) :
  Index s sep = Some i -> Index (s ++ t) sep = Some i.
Proof.
  revert i. induction s as [|c s IH]; intros i H.
  - simpl in H. destruct (HasPrefix EmptyString sep) eqn:E; [|discriminate].
    destruct sep; [|discriminate]. injection H as <-. now destruct t.
  - pose proof (Index_bound _ _ _ H) as Hb.
    change (String c s ++ t) with (String c (s ++ t)).
    cbn [Index] in *.
    change (String c (s ++ t)) with (String c s ++ t).
    destruct (HasPrefix (String c s) sep) eqn:E.
    + rewrite HasPrefix_app, E by (apply HasPrefix_length in E; exact E). exact H.
    + destruct (Index s sep) as [j|] eqn:Ej; [|discriminate].
      injection H as <-. rewrite HasPrefix_app, E by (simpl in *; lia).
      now rewrite (IH j eq_refl).
Qed.

(** ** The lexer at a '$' *)

(** At a '$' the identifier branch is taken, its loop accepts no byte, an
    empty [Var] token is appended and the index is not advanced: whatever
    the number of iterations allowed, the loop has not ended. *)
Lemma tokenize_loop_dollar (fuel : nat) (rest : string) (tokens : list Token) :
  tokenize_loop fuel (String "$" rest) tokens = None.
Proof.
  revert tokens. induction fuel as [|fuel IH]; intros tokens; [reflexivity|].
  cbn [tokenize_loop]. 
  change (IsSpace "$") with false. cbn [Ascii.eqb Bool.eqb orb].
  assert (Htwo : match rest with
                 | String _ _ => isTwoCharOp (take 2 (String "$" rest))
                 | EmptyString => false
                 end = false) by (destruct rest; reflexivity).
  rewrite Htwo. cbn. apply IH.
Qed.

(** ** An opening marker that is never closed *)

Section Unclosed.

(** [tail] starts with an opening marker and holds no closing marker. *)
Variable tail : string.
Hypothesis tail_opens : HasPrefix tail "{{" = true.
Hypothesis tail_unclosed : Index tail "}}" = None.

Lemma Index_close_app (s : string) :
  Index s "}}" = None -> Index (s ++ tail) "}}" = None.
Proof.
  induction s as [|c s IH]; intros H; [exact tail_unclosed|].
  change (String c s ++ tail) with (String c (s ++ tail)).
  cbn [Index] in *.
  destruct (HasPrefix (String c s) "}}") eqn:E; [discriminate|].
  destruct (Index s "}}") eqn:Ei; [discriminate|].
  rewrite IH by reflexivity.
  assert (E' : HasPrefix (String c (s ++ tail)) "}}" = false).
  { cbn [HasPrefix] in *. destruct (Ascii.eqb "}" c); [|reflexivity]. cbn [andb] in *.
    destruct s as [|d s]; [|exact E].
    destruct tail as [|d tl]; [reflexivity|].
    cbn [HasPrefix] in tail_opens. cbn [append].
    destruct (Ascii.eqb "}" d) eqn:Ed; [|reflexivity].
    apply Ascii.eqb_eq in Ed. subst d. discriminate tail_opens. }
  now rewrite E'.
Qed.

Lemma Index_open_app (p : string) :
  Index p "{{" = None ->
  exists idx, Index (p ++ tail) "{{" = Some idx
              /\ Index (drop idx (p ++ tail)) "}}" = None.
Proof.
  induction p as [|c p IH]; intros H.
  - exists 0. cbn [append]. split; [|destruct tail; exact tail_unclosed].
    destruct tail; cbn [Index]; now rewrite tail_opens.
  - change (String c p ++ tail) with (String c (p ++ tail)).
    cbn [Index] in H.
    destruct (HasPrefix (String c p) "{{") eqn:E; [discriminate|].
    destruct (Index p "{{") eqn:Ei; [discriminate|].
    destruct (IH eq_refl) as (idx & Hidx & Hclose).
    destruct (HasPrefix (String c (p ++ tail)) "{{") eqn:E'.
    + exists 0. split; [cbn [Index]; now rewrite E'|].
      cbn [drop].
      assert (Hp : p = EmptyString).
      { destruct p as [|d p]; [reflexivity|]. cbn in E, E'. congruence. }
      subst p. cbn [append] in *. cbn [Index].
      cbn [HasPrefix] in E'. apply andb_prop in E' as [Ec _].
      apply Ascii.eqb_eq in Ec. subst c. cbn. now rewrite tail_unclosed.
    + exists (S idx). split; [cbn [Index]; now rewrite E', Hidx|].
      exact Hclose.
Qed.

End Unclosed.

(** The number of iterations allowed does not matter once it exceeds the
    length of what is left to read. *)
Lemma Preprocessor_loop_fuel (fuel1 fuel2 : nat) (tmpl result : string) :
  String.length tmpl < fuel1 -> String.length tmpl < fuel2 ->
  Preprocessor_loop fuel1 tmpl result = Preprocessor_loop fuel2 tmpl result.
Proof.
  revert fuel2 tmpl result.
  induction fuel1 as [|fuel1 IH]; intros fuel2 tmpl result H1 H2; [lia|].
  destruct fuel2 as [|fuel2]; [lia|].
  cbn [Preprocessor_loop]. destruct tmpl as [|c tmpl]; [reflexivity|].
  destruct (Index (String c tmpl) "{{") as [idx|] eqn:Ei; [|reflexivity].
  destruct (Index (drop idx (String c tmpl)) "}}") as [endIdx|] eqn:Ee; [|reflexivity].
  destruct (convertPlaceholder _); [|reflexivity].
  apply Index_bound in Ee. rewrite drop_length in Ee. cbn [String.length] in *.
  apply IH; rewrite !drop_length; cbn [String.length]; lia.
Qed.

Lemma slice_app (lo hi : nat) (s t : string) :
  lo <= hi -> hi <= String.length s -> slice lo hi (s ++ t) = slice lo hi s.
Proof.
  intros Hlo Hhi. unfold slice. rewrite drop_app by lia.
  apply take_app. rewrite drop_length. lia.
Qed.

Lemma Index_drop_prefix (s sep : string) (idx : nat) :
  Index s sep = Some idx -> HasPrefix (drop idx s) sep = true.
Proof.
  revert idx. induction s as [|a s IH]; intros idx H; cbn [Index] in H.
  - destruct (HasPrefix EmptyString sep) eqn:E; [|discriminate].
    injection H as <-. exact E.
  - destruct (HasPrefix (String a s) sep) eqn:E.
    + injection H as <-. exact E.
    + destruct (Index s sep) eqn:Es; [|discriminate].
      injection H as <-. cbn [drop]. now apply IH.
Qed.

(** The closing marker found after an opening one lies beyond it. *)
Lemma Index_close_after_open (s : string) (endIdx : nat) :
  HasPrefix s "{{" = true -> Index s "}}" = Some endIdx -> 2 <= endIdx.
Proof.
  intros Ho He. destruct s as [|x [|y o]]; cbn [HasPrefix] in Ho.
  - discriminate Ho.
  - rewrite andb_false_r in Ho. discriminate Ho.
  - apply andb_prop in Ho as [Hx Hy]. apply andb_prop in Hy as [Hy _].
    apply Ascii.eqb_eq in Hx, Hy. subst x y.
    cbn [Index HasPrefix] in He.
    change (Ascii.eqb "}" "{") with false in He. cbn [andb] in He.
    destruct o as [|z o]; cbn [Index HasPrefix] in He.
    + discriminate He.
    + destruct (Ascii.eqb "}" z && _).
      * injection He as <-. lia.
      * destruct (option_map S (Index o "}}")); [injection He as <-; lia | discriminate He].
Qed.

Lemma Preprocessor_loop_at_unclosed (fuel : nat) (tail result : string) :
  HasPrefix tail "{{" = true -> Index tail "}}" = None ->
  Preprocessor_loop (S fuel) tail result = Some (result ++ tail).
Proof.
  intros Hopen Hclose. cbn [Preprocessor_loop].
  destruct tail as [|d tl]; [discriminate Hopen|].
  cbn [Index]. rewrite Hopen. cbn [take drop]. rewrite Hclose.
  now rewrite append_nil_r.
Qed.

Lemma Preprocessor_loop_unclosed (tail : string) :
  HasPrefix tail "{{" = true -> Index tail "}}" = None ->
  forall (fuel : nat) (p result : string),
    String.length (p ++ tail) < fuel ->
    Preprocessor_loop fuel (p ++ tail) result
    = option_map (fun out => out ++ tail) (Preprocessor_loop fuel p result).
Proof.
  intros Hopen Hclose. induction fuel as [|fuel IH]; intros p result Hfuel; [lia|].
  destruct p as [|c p].
  - cbn [append]. now rewrite Preprocessor_loop_at_unclosed.
  - change (String c p ++ tail) with (String c (p ++ tail)) in *.
    cbn [Preprocessor_loop].
    change (String c (p ++ tail)) with (String c p ++ tail) in *.
    destruct (Index (String c p) "{{") as [idx|] eqn:Ei.
    + pose proof (Index_bound _ _ _ Ei) as Hb. cbn [String.length] in Hb.
      rewrite (Index_app _ tail _ _ Ei).
      rewrite take_app, drop_app by (cbn [String.length]; lia).
      set (opened := drop idx (String c p)).
      assert (Hlen : String.length opened = S (String.length p) - idx)
        by (unfold opened; now rewrite drop_length).
      destruct (Index opened "}}") as [endIdx|] eqn:Ee.
      * pose proof (Index_bound _ _ _ Ee) as He. cbn [String.length] in He.
        rewrite (Index_app _ tail _ _ Ee).
        assert (H2 : 2 <= endIdx)
          by (apply (Index_close_after_open opened);
              [apply Index_drop_prefix; exact Ei | exact Ee]).
        rewrite slice_app by lia.
        rewrite drop_app by lia.
        destruct (convertPlaceholder (slice 2 endIdx opened)) as [text|]; [|reflexivity].
        apply IH. rewrite append_length, drop_length.
        rewrite append_length in Hfuel. cbn [String.length] in Hfuel. lia.
      * rewrite (Index_close_app tail Hopen Hclose opened Ee).
        cbn [option_map]. now rewrite !append_assoc.
    + destruct (Index_open_app tail Hopen Hclose (String c p) Ei) as (idx & Hidx & Hnone).
      rewrite Hidx, Hnone. cbn [option_map].
      now rewrite !append_assoc, take_drop.
Qed.

Lemma Preprocessor_unclosed (p tail : string) :
  HasPrefix tail "{{" = true -> Index tail "}}" = None ->
  Preprocessor (p ++ tail) = option_map (fun out => out ++ tail) (Preprocessor p).
Proof.
  intros Hopen Hclose. unfold Preprocessor.
  rewrite (Preprocessor_loop_unclosed tail Hopen Hclose) by lia.
  f_equal. apply Preprocessor_loop_fuel; [rewrite append_length|]; lia.
Qed.

Lemma Preprocessor_no_marker (p : string) :
  Index p "{{" = None -> Preprocessor p = Some p.
Proof.
  intros H. unfold Preprocessor. cbn [Preprocessor_loop].
  destruct p as [|c p]; [reflexivity|]. now rewrite H.
Qed.

(** ** Binary expressions over numeric literals *)

Ltac by_cases_on_byte c :=
  destruct c as [[] [] [] [] [] [] [] []].

Lemma allb_app (P : ascii -> bool) (s t : string) :
  allb P (s ++ t) = allb P s && allb P t.
Proof.
  induction s as [|c s IH]; simpl; [reflexivity|]. now rewrite IH, andb_assoc.
Qed.

Lemma allb_impl (P Q : ascii -> bool) (s : string) :
  (forall c, P c = true -> Q c = true) -> allb P s = true -> allb Q s = true.
Proof.
  intros HPQ. induction s as [|c s IH]; simpl; [reflexivity|].
  intros H. apply andb_prop in H as [Hc Hs]. now rewrite (HPQ c Hc), IH.
Qed.

Lemma litTail_allb (hasDot : bool) (s : string) :
  litTail hasDot s = true -> allb litChar s = true.
Proof.
  revert hasDot. induction s as [|c s IH]; intros hasDot H; simpl in *; [reflexivity|].
  unfold litChar at 1. destruct (IsDigit c); simpl.
  - now apply IH with hasDot.
  - destruct (Ascii.eqb c "."); [|discriminate]. simpl.
    apply andb_prop in H as [_ H]. now apply IH with true.
Qed.

Lemma isLiteral_allb (s : string) : isLiteral s = true -> allb litChar s = true.
Proof.
  destruct s as [|c s]; [discriminate|]. simpl. intros H.
  apply andb_prop in H as [Hc Hs]. unfold litChar at 1. rewrite Hc. simpl.
  now apply litTail_allb with false.
Qed.

(** What the lexer's tests answer on a digit. *)
Lemma digit_tests (c : ascii) :
  IsDigit c = true ->
  IsSpace c = false
  /\ Ascii.eqb c "(" || Ascii.eqb c ")" = false
  /\ (forall d, isTwoCharOp (String c (String d EmptyString)) = false)
  /\ ContainsByte "+-*/><!:?" c = false
  /\ Ascii.eqb c "." = false.
Proof.
  intros H. by_cases_on_byte c; vm_compute in H; try discriminate H;
    repeat split; intros; reflexivity.
Qed.

(** A literal's bytes are none of the bytes the other passes look for. *)
Lemma litChar_plain (c : ascii) :
  litChar c = true ->
  Ascii.eqb c " " = false /\ Ascii.eqb c "|" = false /\ Ascii.eqb c "}" = false
  /\ Ascii.eqb c "$" = false /\ Ascii.eqb c "V" = false.
Proof.
  intros H. by_cases_on_byte c; vm_compute in H; try discriminate H;
    repeat split; reflexivity.
Qed.

Lemma literal_free (s : string) :
  isLiteral s = true ->
  free " " s = true /\ free "|" s = true /\ free "}" s = true
  /\ free "$" s = true /\ free "V" s = true.
Proof.
  intros H. apply isLiteral_allb in H.
  repeat split; (eapply allb_impl; [|exact H]); intros c Hc;
    destruct (litChar_plain c Hc) as (H1 & H2 & H3 & H4 & H5);
    apply negb_true_iff; assumption.
Qed.

Lemma scanNumber_literal (s rest : string) (hasDot : bool) :
  litTail hasDot s = true -> stops rest = true ->
  scanNumber hasDot (s ++ rest) = (s, rest).
Proof.
  intros Hs Hrest. revert hasDot Hs.
  induction s as [|c s IH]; intros hasDot Hs.
  - cbn [append]. destruct rest as [|d rest]; [reflexivity|].
    cbn [scanNumber]. cbn [stops] in Hrest. apply negb_true_iff in Hrest.
    unfold litChar in Hrest. apply orb_false_elim in Hrest as [Hd Hdot].
    now rewrite Hd, Hdot, andb_false_r.
  - cbn [append scanNumber]. cbn [litTail] in Hs.
    destruct (IsDigit c) eqn:Hd.
    + destruct (digit_tests c Hd) as (_ & _ & _ & _ & Hdot).
      rewrite Hdot, orb_false_r. cbn [orb]. now rewrite (IH _ Hs).
    + destruct (Ascii.eqb c ".") eqn:Hdot; [|discriminate Hs].
      apply andb_prop in Hs as [Hno Hs]. rewrite Hno. cbn [orb andb].
      rewrite orb_true_r. now rewrite (IH _ Hs).
Qed.

(** More iterations than needed change nothing. *)
Lemma tokenize_loop_more (fuel fuel' : nat) (expr : string) (tokens result : list Token) :
  tokenize_loop fuel expr tokens = Some result -> fuel <= fuel' ->
  tokenize_loop fuel' expr tokens = Some result.
Proof.
  revert fuel' expr tokens.
  induction fuel as [|fuel IH]; intros fuel' expr tokens H Hle; [discriminate H|].
  destruct fuel' as [|fuel']; [lia|]. assert (Hle' : fuel <= fuel') by lia.
  cbn [tokenize_loop] in *. destruct expr as [|ch rest]; [exact H|].
  repeat match goal with
         | |- (if ?c then _ else _) = _ => destruct c
         | |- (let (_, _) := ?p in _) = _ => destruct p
         end; now apply IH.
Qed.

(** One iteration on a digit reads a whole number. *)
Lemma tokenize_loop_number (fuel : nat) (c : ascii) (s lex rest : string)
  (tokens : list Token) :
  IsDigit c = true -> scanNumber false (String c s) = (lex, rest) ->
  tokenize_loop (S fuel) (String c s) tokens
  = tokenize_loop fuel rest (tokens ++ [mkToken Num lex]).
Proof.
  intros Hd Hscan. destruct (digit_tests c Hd) as (Hsp & Hpar & Htwo & Hop & _).
  cbn [tokenize_loop]. rewrite Hsp, Hpar.
  assert (H2 : match s with
               | String _ _ => isTwoCharOp (take 2 (String c s))
               | EmptyString => false
               end = false) by (destruct s; [reflexivity | apply Htwo]).
  now rewrite H2, Hop, Hd, Hscan.
Qed.

Lemma isLiteral_inv (s : string) :
  isLiteral s = true ->
  exists c s', s = String c s' /\ IsDigit c = true /\ litTail false s = true.
Proof.
  destruct s as [|c s']; [discriminate|]. cbn [isLiteral]. intros H.
  apply andb_prop in H as [Hc Hs]. exists c, s'. repeat split; [exact Hc|].
  cbn [litTail]. now rewrite Hc.
Qed.

Lemma tokenize_binary (a b : string) (o : ascii) :
  isLiteral a = true -> isLiteral b = true -> ContainsByte "+-*/" o = true ->
  tokenize (a ++ String " " (String o (String " " b)))
  = Some [mkToken Num a; mkToken Op (String o EmptyString); mkToken Num b].
Proof.
  intros Ha Hb Ho.
  destruct (isLiteral_inv a Ha) as (ca & a' & Ea & Hca & Hta).
  destruct (isLiteral_inv b Hb) as (cb & b' & Eb & Hcb & Htb).
  unfold tokenize. apply tokenize_loop_more with 6.
  2:{ rewrite append_length, Ea, Eb. cbn [String.length]. lia. }
  assert (Hscan_a : scanNumber false (a ++ String " " (String o (String " " b)))
                    = (a, String " " (String o (String " " b))))
    by (now apply scanNumber_literal).
  assert (Hscan_b : scanNumber false b = (b, EmptyString)).
  { rewrite <- (append_nil_r b) at 1. now apply scanNumber_literal. }
  rewrite Ea in Hscan_a at 1. cbn [append] in Hscan_a.
  rewrite Ea at 1. cbn [append].
  rewrite (tokenize_loop_number 5 ca _ _ _ [] Hca Hscan_a).
  assert (Hop : tokenize_loop 5 (String " " (String o (String " " b))) ([] ++ [mkToken Num a])
                = tokenize_loop 2 b [mkToken Num a; mkToken Op (String o EmptyString)]).
  { by_cases_on_byte o; vm_compute in Ho; try discriminate Ho; reflexivity. }
  rewrite Hop. rewrite Eb in Hscan_b at 1. rewrite Eb at 1.
  rewrite (tokenize_loop_number 1 cb _ _ _ _ Hcb Hscan_b). reflexivity.
Qed.

(** *** The host's reading of a generated stage *)

Lemma splitOn_app (sep : ascii) (u v : string) :
  free sep u = true -> splitOn sep (u ++ String sep v) = u :: splitOn sep v.
Proof.
  induction u as [|c u IH]; intros H.
  - cbn [append splitOn]. now rewrite Ascii.eqb_refl.
  - cbn [free allb] in H. apply andb_prop in H as [Hc Hu].
    apply negb_true_iff in Hc. cbn [append splitOn]. rewrite Hc.
    now rewrite (IH Hu).
Qed.

Lemma splitOn_free (sep : ascii) (v : string) :
  free sep v = true -> splitOn sep v = [v].
Proof.
  induction v as [|c v IH]; intros H; [reflexivity|].
  cbn [free allb] in H. apply andb_prop in H as [Hc Hv].
  apply negb_true_iff in Hc. cbn [splitOn]. rewrite Hc. now rewrite (IH Hv).
Qed.

Lemma free_app (x : ascii) (s t : string) : free x (s ++ t) = free x s && free x t.
Proof. apply allb_app. Qed.

(** The stage text [fn b], after the separator, read as fields. *)
Lemma Fields_stage (fn b : string) :
  free " " fn = true -> nonEmpty fn = true -> isLiteral b = true ->
  Fields (String " " (fn ++ String " " b)) = [fn; b].
Proof.
  intros Hfn Hne Hb. destruct (literal_free b Hb) as (Hsp & _).
  unfold Fields. cbn [splitOn]. rewrite Ascii.eqb_refl.
  rewrite splitOn_app, (splitOn_free " " b) by assumption.
  cbn [filter nonEmpty String.eqb negb]. rewrite Hne.
  destruct b; [discriminate Hb | reflexivity].
Qed.

Lemma Fields_base (a : string) :
  isLiteral a = true -> Fields (a ++ " ") = [a].
Proof.
  intros Ha. destruct (literal_free a Ha) as (Hsp & _).
  unfold Fields. rewrite splitOn_app by assumption.
  cbn [splitOn filter nonEmpty String.eqb negb].
  destruct a; [discriminate Ha | reflexivity].
Qed.

Lemma evalPipeline_binary (toFloatRV : Value -> float) (operand : string -> Value)
  (a b fn : string) :
  isLiteral a = true -> isLiteral b = true ->
  free " " fn = true -> free "|" fn = true -> nonEmpty fn = true ->
  evalPipeline toFloatRV operand (a ++ " | " ++ fn ++ " " ++ b)
  = callOp toFloatRV fn [operand b; operand a].
Proof.
  intros Ha Hb Hsp Hbar Hne.
  destruct (literal_free a Ha) as (_ & Habar & _).
  destruct (literal_free b Hb) as (_ & Hbbar & _).
  unfold evalPipeline.
  replace (a ++ " | " ++ fn ++ " " ++ b)
    with ((a ++ " ") ++ String "|" (String " " (fn ++ String " " b)))
    by (now rewrite append_assoc).
  rewrite splitOn_app by (rewrite free_app, Habar; reflexivity).
  rewrite splitOn_free.
  2:{ cbn [free allb]. fold (free "|" (fn ++ String " " b)).
      rewrite free_app, Hbar. cbn [free allb]. fold (free "|" b).
      now rewrite Hbbar. }
  cbn [map]. rewrite Fields_base, Fields_stage by assumption. reflexivity.
Qed.

(** *** The orchestrator on one padded placeholder *)

Lemma Index_close_at (u v : string) :
  free "}" u = true -> Index (u ++ String "}" (String "}" v)) "}}" = Some (String.length u).
Proof.
  induction u as [|c u IH]; intros H; [destruct v; reflexivity|].
  cbn [free allb] in H. apply andb_prop in H as [Hc Hu].
  apply negb_true_iff in Hc. rewrite Ascii.eqb_sym in Hc.
  cbn [append Index HasPrefix String.length]. rewrite Hc. cbn [andb].
  now rewrite (IH Hu).
Qed.

Lemma take_all (s : string) : take (String.length s) s = s.
Proof. induction s as [|c s IH]; cbn; [reflexivity | now rewrite IH]. Qed.

Lemma drop_all (s : string) : drop (String.length s) s = EmptyString.
Proof. induction s as [|c s IH]; cbn; [reflexivity | exact IH]. Qed.

Lemma rev_string_app (s t : string) : rev_string (s ++ t) = rev_string t ++ rev_string s.
Proof.
  induction s as [|c s IH]; cbn [append rev_string].
  - now rewrite append_nil_r.
  - now rewrite IH, append_assoc.
Qed.

(** A non-empty string ends in a byte, which has what all its bytes have. *)
Lemma last_byte (P : ascii -> bool) (s : string) :
  s <> EmptyString -> allb P s = true ->
  exists w c, s = w ++ String c EmptyString /\ P c = true.
Proof.
  induction s as [|c s IH]; intros Hne H; [congruence|].
  cbn [allb] in H. apply andb_prop in H as [Hc Hs].
  destruct s as [|d s].
  - exists EmptyString, c. now split.
  - destruct IH as (w & e & Ew & He); [discriminate | exact Hs |].
    exists (String c w), e. split; [|exact He]. cbn [append]. now rewrite <- Ew.
Qed.

Lemma leadingSpace_digit (c : ascii) (s : string) :
  IsDigit c = true -> leadingSpace (String c s) = None.
Proof.
  intros H. by_cases_on_byte c; vm_compute in H; try discriminate H; reflexivity.
Qed.

Lemma trailingSpace_litChar (c : ascii) (w : string) :
  litChar c = true -> trailingSpace (w ++ String c EmptyString) = None.
Proof.
  intros H. unfold trailingSpace. rewrite rev_string_app. cbn [rev_string append].
  by_cases_on_byte c; vm_compute in H; try discriminate H; reflexivity.
Qed.

Lemma TrimLeft_kept (s : string) : leadingSpace s = None -> TrimLeft s = s.
Proof.
  intros H. unfold TrimLeft. destruct (String.length s); cbn [TrimLeft_fuel];
    [reflexivity | now rewrite H].
Qed.

Lemma TrimRight_kept (s : string) : trailingSpace s = None -> TrimRight s = s.
Proof.
  intros H. unfold TrimRight. destruct (String.length s); cbn [TrimRight_fuel];
    [reflexivity | now rewrite H].
Qed.

(** An expression that starts with a digit and ends with a literal's byte,
    padded with one space on each side, is trimmed back to itself. *)
Lemma TrimSpace_padded (c d : ascii) (w : string) :
  IsDigit c = true -> litChar d = true ->
  TrimSpace (String " " ((String c w ++ String d EmptyString) ++ " "))
  = String c w ++ String d EmptyString.
Proof.
  intros Hc Hd. unfold TrimSpace.
  set (e := String c w ++ String d EmptyString).
  assert (Hleft : TrimLeft (String " " (e ++ " ")) = e ++ " ").
  { unfold TrimLeft. cbn [String.length TrimLeft_fuel].
    change (leadingSpace (String " " (e ++ " "))) with (Some 1). cbn [drop].
    fold (TrimLeft (e ++ " ")). apply TrimLeft_kept.
    unfold e. cbn [append]. now apply leadingSpace_digit. }
  rewrite Hleft. unfold TrimRight.
  rewrite append_length. cbn [String.length]. rewrite Nat.add_1_r.
  cbn [TrimRight_fuel].
  assert (Htrail : trailingSpace (e ++ " ") = Some 1).
  { unfold trailingSpace. rewrite rev_string_app. reflexivity. }
  rewrite Htrail, append_length. cbn [String.length].
  replace (String.length e + 1 - 1) with (String.length e) by lia.
  rewrite take_app, take_all by lia.
  fold (TrimRight e). apply TrimRight_kept.
  unfold e. change (String c w ++ String d EmptyString) with (String c w ++ String d EmptyString).
  now apply trailingSpace_litChar.
Qed.

Lemma findAllRefs_free (pos : nat) (s : string) :
  free "$" s = true -> findAllRefs 0 pos s = [].
Proof.
  revert pos. induction s as [|c s IH]; intros pos H; [reflexivity|].
  cbn [free allb] in H. apply andb_prop in H as [Hc Hs].
  apply negb_true_iff in Hc. cbn [findAllRefs]. rewrite Hc. now apply IH.
Qed.

Lemma replaceVars_free (s : string) : free "$" s = true -> replaceVars s = s.
Proof.
  intros H. unfold replaceVars, FindAllStringIndex. now rewrite findAllRefs_free.
Qed.

Lemma ReplaceAll_free (s new : string) :
  free "V" s = true -> ReplaceAll s "Vars." new = s.
Proof.
  unfold ReplaceAll. induction s as [|c s IH]; intros H; [reflexivity|].
  cbn [free allb] in H. apply andb_prop in H as [Hc Hs].
  apply negb_true_iff in Hc. rewrite Ascii.eqb_sym in Hc.
  cbn [ReplaceAll_from HasPrefix]. rewrite Hc. cbn [andb]. now rewrite (IH Hs).
Qed.

Lemma ContainsAny_app (s t set : string) :
  ContainsAny (s ++ t) set = ContainsAny s set || ContainsAny t set.
Proof.
  induction s as [|c s IH]; cbn [append ContainsAny]; [reflexivity|].
  now rewrite IH, orb_assoc.
Qed.

Lemma infix_inv (op : string) (f : float -> float -> float) :
  infix op = Some f ->
  (op = "+" /\ f = PrimFloat.add) \/ (op = "-" /\ f = PrimFloat.sub)
  \/ (op = "*" /\ f = PrimFloat.mul) \/ (op = "/" /\ f = PrimFloat.div).
Proof.
  unfold infix. intros H.
  destruct (String.eqb op "+") eqn:E1;
    [apply String.eqb_eq in E1; injection H as <-; auto|].
  destruct (String.eqb op "-") eqn:E2;
    [apply String.eqb_eq in E2; injection H as <-; auto|].
  destruct (String.eqb op "*") eqn:E3;
    [apply String.eqb_eq in E3; injection H as <-; auto|].
  destruct (String.eqb op "/") eqn:E4;
    [apply String.eqb_eq in E4; injection H as <-; auto 6|].
  discriminate H.
Qed.

(** Lines 363-376 on the interior of [{{ a o b }}]. *)
Lemma convertPlaceholder_binary (a b fn : string) (o : ascii) :
  isLiteral a = true -> isLiteral b = true ->
  ContainsByte "+-*/" o = true ->
  lookup (String o EmptyString) opMap = Some fn ->
  convertPlaceholder (String " " ((a ++ String " " (String o (String " " b))) ++ " "))
  = Some ("{{ " ++ (a ++ " | " ++ fn ++ " " ++ b) ++ " }}").
Proof.
  intros Ha Hb Ho Hfn.
  destruct (isLiteral_inv a Ha) as (ca & a' & Ea & Hca & _).
  destruct (last_byte litChar b) as (b0 & d & Eb & Hd);
    [destruct b; [discriminate Hb | discriminate] | now apply isLiteral_allb |].
  destruct (literal_free a Ha) as (_ & _ & _ & Ha1 & Ha2).
  destruct (literal_free b Hb) as (_ & _ & _ & Hb1 & Hb2).
  set (e := a ++ String " " (String o (String " " b))).
  assert (Etrim : TrimSpace (String " " (e ++ " ")) = e).
  { assert (Ee : e = String ca (a' ++ String " " (String o (String " " b0)))
                     ++ String d EmptyString).
    { unfold e. rewrite Ea, Eb at 1. cbn [append]. rewrite append_assoc.
      reflexivity. }
    rewrite Ee. now apply TrimSpace_padded. }
  assert (Efree : free "$" e = true).
  { unfold e. rewrite free_app, Ha1. cbn [free allb andb]. fold (free "$" b).
    rewrite Hb1.
    clear - Ho. by_cases_on_byte o; vm_compute in Ho; try discriminate Ho; reflexivity. }
  assert (Eops : ContainsAny e "+-*/><=!&|?:" = true).
  { unfold e. rewrite ContainsAny_app. cbn [ContainsAny].
    assert (Hc : ContainsByte "+-*/><=!&|?:" o = true)
      by (clear - Ho; by_cases_on_byte o; vm_compute in Ho; try discriminate Ho; reflexivity).
    rewrite Hc. now rewrite !orb_true_r. }
  unfold convertPlaceholder. rewrite Etrim, (replaceVars_free e Efree), Eops.
  unfold e at 1. rewrite (tokenize_binary a b o Ha Hb Ho).
  assert (Egen : rpnToPipeline (toRPN (parseTernary
                   [mkToken Num a; mkToken Op (String o EmptyString); mkToken Num b]))
                 = a ++ " | " ++ fn ++ " " ++ b).
  { clear - Ho Hfn.
    by_cases_on_byte o; vm_compute in Ho; try discriminate Ho;
      injection Hfn as <-; reflexivity. }
  rewrite Egen, ReplaceAll_free; [reflexivity|].
  rewrite free_app, Ha2. cbn [andb].
  clear - Ho Hfn Hb2.
  by_cases_on_byte o; vm_compute in Ho; try discriminate Ho;
    injection Hfn as <-; cbn [append free allb]; fold (free "V" b); now rewrite Hb2.
Qed.

(** One placeholder, closed, and nothing else. *)
Lemma Preprocessor_single (interior text : string) :
  free "}" interior = true ->
  convertPlaceholder interior = Some text ->
  Preprocessor (("{{" ++ interior) ++ "}}") = Some text.
Proof.
  intros Hfree Hconv. unfold Preprocessor.
  set (u := "{{" ++ interior).
  assert (Hu : free "}" u = true) by exact Hfree.
  assert (Hlen : String.length (u ++ "}}") = S (S (S (S (String.length interior))))).
  { rewrite append_length. unfold u. cbn [append String.length]. lia. }
  rewrite Hlen.
  assert (Eu : u ++ "}}" = String "{" (String "{" (interior ++ "}}"))) by reflexivity.
  rewrite Eu. cbn [Preprocessor_loop]. rewrite <- Eu.
  assert (Hopen : Index (u ++ "}}") "{{" = Some 0) by (rewrite Eu; reflexivity).
  rewrite Hopen. cbn [take drop].
  rewrite (Index_close_at u EmptyString Hu).
  rewrite slice_app by (unfold u; cbn [append String.length]; lia).
  assert (Hslice : slice 2 (String.length u) u = interior).
  { unfold slice, u. cbn [append String.length drop Nat.sub].
    rewrite Nat.sub_0_r. apply take_all. }
  rewrite Hslice, Hconv.
  replace (String.length u + 2) with (String.length (u ++ "}}"))
    by (rewrite append_length; reflexivity).
  rewrite drop_all. reflexivity.
Qed.

(** C1: for numeric literals [a] and [b] and an operator [op] among
    [+ - * /] whose runtime name is [fn], the expression [a op b] is turned
    into the pipeline [a | fn b], alone or inside a placeholder; the host
    runs it as [fn(b, a)], and the runtime function, whose accumulator is
    its last operand, returns the float64 that the infix operation gives on
    the two operands as the host reads them (for [/], when the divisor is
    not zero). *)
Theorem C1_binary_literal_pipeline :
  forall (toFloatRV : Value -> float) (operand : string -> Value)
         (a b op fn : string) (f : float -> float -> float),
    isLiteral a = true -> isLiteral b = true ->
    infix op = Some f -> lookup op opMap = Some fn ->
    (op = "/" -> PrimFloat.eqb (toFloatRV (operand b)) 0%float = false) ->
    toPipeline (a ++ " " ++ op ++ " " ++ b) = Some (a ++ " | " ++ fn ++ " " ++ b)
    /\ Preprocessor ("{{ " ++ a ++ " " ++ op ++ " " ++ b ++ " }}")
       = Some ("{{ " ++ a ++ " | " ++ fn ++ " " ++ b ++ " }}")
    /\ evalPipeline toFloatRV operand (a ++ " | " ++ fn ++ " " ++ b)
       = Some (RV (f (toFloatRV (operand a)) (toFloatRV (operand b)))).
Proof.
  intros toFloatRV operand a b op fn f Ha Hb Hf Hfn Hdiv.
  assert (Hop : exists o, op = String o EmptyString /\ ContainsByte "+-*/" o = true).
  { destruct (infix_inv op f Hf) as [[-> _] | [[-> _] | [[-> _] | [-> _]]]];
      eexists; split; reflexivity. }
  destruct Hop as (o & -> & Ho).
  destruct (literal_free a Ha) as (_ & _ & Ha3 & _).
  destruct (literal_free b Hb) as (_ & _ & Hb3 & _).
  split; [|split].
  - unfold toPipeline. cbn [append]. rewrite (tokenize_binary a b o Ha Hb Ho).
    cbn [option_map]. f_equal. clear - Ho Hfn.
    by_cases_on_byte o; vm_compute in Ho; try discriminate Ho;
      injection Hfn as <-; reflexivity.
  - pose proof (convertPlaceholder_binary a b fn o Ha Hb Ho Hfn) as Hconv.
    set (interior := String " " ((a ++ String " " (String o (String " " b))) ++ " ")) in *.
    assert (Hfree : free "}" interior = true).
    { unfold interior. cbn [free allb andb].
      fold (free "}" ((a ++ String " " (String o (String " " b))) ++ " ")).
      rewrite !free_app, Ha3. cbn [free allb andb]. fold (free "}" b). rewrite Hb3.
      clear - Ho. by_cases_on_byte o; vm_compute in Ho; try discriminate Ho; reflexivity. }
    pose proof (Preprocessor_single interior _ Hfree Hconv) as Hpre.
    replace ("{{ " ++ a ++ " " ++ String o EmptyString ++ " " ++ b ++ " }}")
      with (("{{" ++ interior) ++ "}}")
      by (unfold interior; cbn [append]; rewrite !append_assoc; reflexivity).
    rewrite Hpre. now rewrite !append_assoc.
  - assert (Hfn' : free " " fn = true /\ free "|" fn = true /\ nonEmpty fn = true).
    { clear - Ho Hfn. by_cases_on_byte o; vm_compute in Ho; try discriminate Ho;
        injection Hfn as <-; repeat split; reflexivity. }
    destruct Hfn' as (H1 & H2 & H3).
    rewrite evalPipeline_binary by assumption.
    destruct (infix_inv _ f Hf) as [[E ->] | [[E ->] | [[E ->] | [E ->]]]];
      rewrite E in Hfn; injection Hfn as <-; try reflexivity.
    cbv [callOp String.eqb Ascii.eqb Bool.eqb Div unsnoc rev app divLoop].
    now rewrite (Hdiv E).
Qed.

Lemma C1_binary_literal_pipeline_witness :
  Preprocessor ("{{ " ++ "7.5" ++ " " ++ "/" ++ " " ++ "2" ++ " }}")
  = Some ("{{ " ++ "7.5" ++ " | " ++ "div" ++ " " ++ "2" ++ " }}")
  /\ evalPipeline SampleHost.toFloatRV (fun s => if String.eqb s "2" then VInt 2 else VFloat 7.5%float)
       ("7.5" ++ " | " ++ "div" ++ " " ++ "2")
     = Some (RV 3.75%float).
Proof.
  destruct (C1_binary_literal_pipeline SampleHost.toFloatRV
              (fun s => if String.eqb s "2" then VInt 2 else VFloat 7.5%float)
              "7.5" "2" "/" "div" PrimFloat.div)
    as (_ & Hp & He); try reflexivity.
  split; [exact Hp | exact He].
Defined.

(** ** When the lexer returns *)

Lemma accepted_not_dollar (c : ascii) :
  IsLetter c || IsDigit c || Ascii.eqb c "_" || Ascii.eqb c "." = true ->
  Ascii.eqb c "$" = false.
Proof.
  intros H. by_cases_on_byte c; vm_compute in H; try discriminate H; reflexivity.
Qed.

Lemma scanNumber_rest (s : string) (hasDot : bool) :
  String.length (snd (scanNumber hasDot s)) <= String.length s
  /\ free "$" (snd (scanNumber hasDot s)) = free "$" s.
Proof.
  revert hasDot. induction s as [|c s IH]; intros hasDot; [split; reflexivity|].
  cbn [scanNumber].
  destruct (IsDigit c || negb hasDot && Ascii.eqb c ".") eqn:E.
  - destruct (IH (hasDot || Ascii.eqb c ".")) as [Hlen Hfree].
    destruct (scanNumber (hasDot || Ascii.eqb c ".") s) as [lex rest].
    cbn [snd String.length] in *. split; [lia|].
    cbn [free allb]. fold (free "$" s). rewrite Hfree.
    assert (Hc : Ascii.eqb c "$" = false).
    { apply accepted_not_dollar. apply orb_prop in E as [E | E].
      - rewrite E. now rewrite orb_true_r.
      - apply andb_prop in E as [_ E]. rewrite E. now rewrite !orb_true_r. }
    now rewrite Hc.
  - split; reflexivity.
Qed.

Lemma scanIdent_rest (s : string) :
  String.length (snd (scanIdent s)) <= String.length s
  /\ free "$" (snd (scanIdent s)) = free "$" s.
Proof.
  induction s as [|c s [Hlen Hfree]]; [split; reflexivity|].
  cbn [scanIdent].
  destruct (IsLetter c || IsDigit c || Ascii.eqb c "_" || Ascii.eqb c ".") eqn:E.
  - destruct (scanIdent s) as [lex rest]. cbn [snd String.length] in *.
    split; [lia|]. cbn [free allb]. fold (free "$" s).
    now rewrite Hfree, (accepted_not_dollar c E).
  - split; reflexivity.
Qed.

Lemma twoCharOp_not_dollar (c d : ascii) :
  isTwoCharOp (String c (String d EmptyString)) = true -> Ascii.eqb d "$" = false.
Proof.
  unfold isTwoCharOp, twoCharOps. cbn [existsb]. intros H.
  repeat (apply orb_prop in H as [H | H];
          [apply String.eqb_eq in H; injection H as _ Hd; subst d; reflexivity|]).
  discriminate H.
Qed.

(** The state after one iteration that does not meet '$' at its start: a
    shorter text, with a '$' in it exactly when there was one before. *)
Lemma tokenize_loop_returns (fuel : nat) (expr : string) (tokens : list Token) :
  String.length expr < fuel -> free "$" expr = true ->
  exists result, tokenize_loop fuel expr tokens = Some result.
Proof.
  revert expr tokens. induction fuel as [|fuel IH]; intros expr tokens Hlen Hfree; [lia|].
  destruct expr as [|ch rest]; [now exists tokens|].
  cbn [String.length] in Hlen. cbn [free allb] in Hfree. fold (free "$" rest) in Hfree.
  apply andb_prop in Hfree as [Hch Hrest]. apply negb_true_iff in Hch.
  cbn [tokenize_loop].
  destruct (IsSpace ch); [apply IH; [lia | exact Hrest]|].
  destruct (Ascii.eqb ch "(" || Ascii.eqb ch ")"); [apply IH; [lia | exact Hrest]|].
  destruct rest as [|d rest'] eqn:Erest.
  - destruct (ContainsByte "+-*/><!:?" ch); [apply IH; [cbn; lia | reflexivity]|].
    destruct (IsDigit ch) eqn:Hd.
    + cbn [scanNumber]. rewrite Hd. cbn [orb]. apply IH; [cbn; lia | reflexivity].
    + rewrite Hch, orb_false_r.
      destruct (IsLetter ch || Ascii.eqb ch "_") eqn:Hl;
        [|apply IH; [cbn; lia | reflexivity]].
      cbn [scanIdent].
      assert (Hacc : IsLetter ch || IsDigit ch || Ascii.eqb ch "_" || Ascii.eqb ch "." = true).
      { apply orb_prop in Hl as [-> | ->]; [reflexivity | now rewrite !orb_true_r]. }
      rewrite Hacc. apply IH; [cbn; lia | reflexivity].
  - rewrite <- Erest in *.
    destruct (isTwoCharOp (take 2 (String ch rest))) eqn:Etwo.
    + apply IH.
      * rewrite drop_length. cbn [String.length]. lia.
      * rewrite Erest in *. cbn [drop]. cbn [free allb] in Hrest.
        now apply andb_prop in Hrest as [_ Hrest].
    + destruct (ContainsByte "+-*/><!:?" ch); [apply IH; [lia | exact Hrest]|].
      destruct (IsDigit ch) eqn:Hd.
      * cbn [scanNumber]. rewrite Hd. cbn [orb].
        destruct (scanNumber_rest rest (Ascii.eqb ch ".")) as [Hl Hf].
        destruct (scanNumber (Ascii.eqb ch ".") rest) as [lex rest2].
        cbn [snd] in *. apply IH; [lia | now rewrite Hf].
      * rewrite Hch, orb_false_r.
        destruct (IsLetter ch || Ascii.eqb ch "_") eqn:Hl;
          [|apply IH; [lia | exact Hrest]].
        cbn [scanIdent].
        assert (Hacc : IsLetter ch || IsDigit ch || Ascii.eqb ch "_" || Ascii.eqb ch "." = true).
        { apply orb_prop in Hl as [-> | ->]; [reflexivity | now rewrite !orb_true_r]. }
        rewrite Hacc.
        destruct (scanIdent_rest rest) as [Hl2 Hf].
        destruct (scanIdent rest) as [lex rest2].
        cbn [snd] in *. apply IH; [lia | now rewrite Hf].
Qed.

(** The lexer returns on every expression without '$'. *)
Lemma tokenize_returns (expr : string) :
  free "$" expr = true -> exists tokens, tokenize expr = Some tokens.
Proof. intros H. unfold tokenize. apply tokenize_loop_returns; [lia | exact H]. Qed.

(** The lexer returns on no expression with a '$': the bytes read before
    the first '$' are consumed, and the loop then stays at it. *)
Lemma tokenize_loop_diverges (fuel : nat) (expr : string) (tokens : list Token) :
  free "$" expr = false -> tokenize_loop fuel expr tokens = None.
Proof.
  revert expr tokens. induction fuel as [|fuel IH]; intros expr tokens Hfree; [reflexivity|].
  destruct expr as [|ch rest]; [discriminate Hfree|].
  destruct (Ascii.eqb ch "$") eqn:Hch.
  { apply Ascii.eqb_eq in Hch. subst ch. apply tokenize_loop_dollar. }
  cbn [free allb] in Hfree. fold (free "$" rest) in Hfree.
  rewrite Hch in Hfree. cbn [negb andb] in Hfree.
  cbn [tokenize_loop].
  destruct (IsSpace ch); [now apply IH|].
  destruct (Ascii.eqb ch "(" || Ascii.eqb ch ")"); [now apply IH|].
  destruct rest as [|d rest'] eqn:Erest; [discriminate Hfree|].
  rewrite <- Erest in *.
  destruct (isTwoCharOp (take 2 (String ch rest))) eqn:Etwo.
  - apply IH. rewrite Erest in *. cbn [take] in Etwo. cbn [drop].
    apply twoCharOp_not_dollar in Etwo.
    cbn [free allb] in Hfree. fold (free "$" rest') in Hfree.
    now rewrite Etwo in Hfree.
  - destruct (ContainsByte "+-*/><!:?" ch); [now apply IH|].
    destruct (IsDigit ch) eqn:Hd.
    + cbn [scanNumber]. rewrite Hd. cbn [orb].
      destruct (scanNumber_rest rest (Ascii.eqb ch ".")) as [_ Hf].
      destruct (scanNumber (Ascii.eqb ch ".") rest) as [lex rest2].
      cbn [snd] in *. apply IH. now rewrite Hf.
    + rewrite Hch, orb_false_r.
      destruct (IsLetter ch || Ascii.eqb ch "_") eqn:Hl; [|now apply IH].
      cbn [scanIdent].
      assert (Hacc : IsLetter ch || IsDigit ch || Ascii.eqb ch "_" || Ascii.eqb ch "." = true).
      { apply orb_prop in Hl as [-> | ->]; [reflexivity | now rewrite !orb_true_r]. }
      rewrite Hacc.
      destruct (scanIdent_rest rest) as [_ Hf].
      destruct (scanIdent rest) as [lex rest2].
      cbn [snd] in *. apply IH. now rewrite Hf.
Qed.

(** ** The unclosed marker, and when the orchestrator returns *)

(** The orchestrator's own loop always ends: when there is no result, a
    placeholder was met whose expression, once trimmed and rewritten, still
    holds a '$' and is sent to the lexer. *)
Lemma Preprocessor_loop_none (fuel : nat) (tmpl result : string) :
  String.length tmpl < fuel -> Preprocessor_loop fuel tmpl result = None ->
  exists interior, convertPlaceholder interior = None.
Proof.
  revert tmpl result. induction fuel as [|fuel IH]; intros tmpl result Hlen H; [lia|].
  cbn [Preprocessor_loop] in H. destruct tmpl as [|c tmpl]; [discriminate H|].
  destruct (Index (String c tmpl) "{{") as [idx|] eqn:Ei; [|discriminate H].
  destruct (Index (drop idx (String c tmpl)) "}}") as [endIdx|] eqn:Ee; [|discriminate H].
  destruct (convertPlaceholder (slice 2 endIdx (drop idx (String c tmpl)))) eqn:Ec;
    [|eexists; exact Ec].
  apply IH in H; [exact H|].
  apply Index_bound in Ee. rewrite drop_length in Ee. rewrite !drop_length.
  cbn [String.length] in *. lia.
Qed.

Lemma convertPlaceholder_none (interior : string) :
  convertPlaceholder interior = None ->
  free "$" (replaceVars (TrimSpace interior)) = false.
Proof.
  unfold convertPlaceholder. intros H.
  destruct (ContainsAny _ _); [|discriminate H].
  destruct (free "$" (replaceVars (TrimSpace interior))) eqn:E; [|reflexivity].
  destruct (tokenize_returns _ E) as (tokens & Ht). rewrite Ht in H. discriminate H.
Qed.

(** C10: when the template ends in an opening marker that is never closed,
    the result is the result for the text before that marker followed by
    the marker and everything after it, verbatim; in particular the whole
    template comes back unchanged when no marker precedes.  The result for
    the text before the marker is not always there: the lexer returns on an
    expression exactly when it holds no '$', the orchestrator has no result
    only when it sends the lexer an expression with a '$', and a '$' that
    the rewriter leaves in an expression with operators, as in
    [{{ $.x + 1 }}{{ y], keeps the orchestrator from ever returning. *)
Theorem C10_unclosed_marker_copied_verbatim :
  (forall p tail,
      HasPrefix tail "{{" = true -> Index tail "}}" = None ->
      Preprocessor (p ++ tail) = option_map (fun out => out ++ tail) (Preprocessor p))
  /\ (forall p tail,
        HasPrefix tail "{{" = true -> Index tail "}}" = None ->
        Index p "{{" = None ->
        Preprocessor (p ++ tail) = Some (p ++ tail))
  /\ (forall expr, free "$" expr = true -> exists tokens, tokenize expr = Some tokens)
  /\ (forall fuel expr tokens,
        free "$" expr = false -> tokenize_loop fuel expr tokens = None)
  /\ (forall tmpl,
        Preprocessor tmpl = None ->
        exists interior, free "$" (replaceVars (TrimSpace interior)) = false)
  /\ replaceVars "$.x + 1" = "$.x + 1"
  /\ (forall fuel, Preprocessor_loop fuel "{{ $.x + 1 }}{{ y" EmptyString = None).
Proof.
  split; [|split; [|split; [|split; [|split; [|split]]]]].
  - intros p tail Hopen Hclose. now apply Preprocessor_unclosed.
  - intros p tail Hopen Hclose Hp.
    rewrite Preprocessor_unclosed by assumption.
    now rewrite Preprocessor_no_marker.
  - exact tokenize_returns.
  - exact tokenize_loop_diverges.
  - intros tmpl H. unfold Preprocessor in H.
    apply Preprocessor_loop_none in H as (interior & H); [|lia].
    exists interior. now apply convertPlaceholder_none.
  - reflexivity.
  - intros [|fuel]; reflexivity.
Qed.

Lemma C10_unclosed_marker_copied_verbatim_witness :
  Preprocessor ("a {{ 1 + 2 }} b " ++ "{{ c + d") = Some ("a {{ 1 | add 2 }} b " ++ "{{ c + d")
  /\ Preprocessor ("no marker, " ++ "{{ x }") = Some ("no marker, " ++ "{{ x }")
  /\ (exists tokens, tokenize "1 + 2" = Some tokens)
  /\ tokenize_loop 100 "1 + $" [] = None.
Proof.
  destruct C10_unclosed_marker_copied_verbatim as (H1 & H2 & H3 & H4 & _).
  split; [|split; [|split]].
  - rewrite (H1 "a {{ 1 + 2 }} b " "{{ c + d" eq_refl eq_refl). reflexivity.
  - apply H2; reflexivity.
  - apply H3. reflexivity.
  - apply H4. reflexivity.
Defined.

(** ** The rewriter at a declaration *)

Lemma findAllRefs_skip (s t : string) (pos : nat) :
  findAllRefs (String.length s) pos (s ++ t) = findAllRefs 0 (pos + String.length s) t.
Proof.
  revert pos. induction s as [|c s IH]; intros pos.
  - cbn [String.length append]. now rewrite Nat.add_0_r.
  - cbn [String.length append findAllRefs]. rewrite IH. f_equal. lia.
Qed.

(** When the pattern matches exactly [$name] at the start of the text, the
    text after it starts with an assignment marker and holds no further
    '$', the rewriter returns the text as it is. *)
Lemma replaceVars_declaration (name after : string) :
  matchRef (name ++ after) = Some (String.length name) ->
  declares after = true -> free "$" after = true ->
  replaceVars (String "$" (name ++ after)) = String "$" (name ++ after).
Proof.
  intros Hmatch Hdecl Hfree.
  assert (Hne : after <> EmptyString) by (intros ->; discriminate Hdecl).
  unfold replaceVars, FindAllStringIndex. cbn [findAllRefs]. 
  change (Ascii.eqb "$" "$") with true. cbv iota. rewrite Hmatch.
  rewrite findAllRefs_skip, findAllRefs_free by assumption.
  cbn [fold_left replaceStep]. cbn [Nat.add].
  set (expr := String "$" (name ++ after)).
  assert (Hlen : (S (String.length name) <? String.length expr)%nat = true).
  { apply Nat.ltb_lt. unfold expr. cbn [String.length]. rewrite append_length.
    destruct after; [congruence | cbn [String.length]; lia]. }
  assert (Hdrop : drop (S (String.length name)) expr = after).
  { unfold expr. cbn [drop]. rewrite drop_app, drop_all by lia. reflexivity. }
  assert (Htake : slice 0 (S (String.length name)) expr = String "$" name).
  { unfold slice, expr. cbn [drop Nat.sub take]. now rewrite take_app, take_all by lia. }
  rewrite Hlen, Hdrop. fold (declares after). rewrite Hdecl, Htake, Hdrop.
  reflexivity.
Qed.

(** ** Declaration sites *)

(** C7: the rewriter leaves [$name] alone when the text right after the
    match starts with an assignment marker.  In [$a := 1] that text starts
    with a space: [$a] is rewritten like any read, the rewritten text holds
    operator characters and goes through the expression pass, whose
    generator falls back on the space-joined RPN, and the placeholder comes
    out changed.  With the marker right after the name the rewriter leaves
    the text alone, and the '$' it leaves keeps the lexer from returning. *)
Theorem C7_spaced_declaration_is_rewritten :
  (forall name after,
      matchRef (name ++ after) = Some (String.length name) ->
      declares after = true -> free "$" after = true ->
      replaceVars (String "$" (name ++ after)) = String "$" (name ++ after))
  /\ replaceVars "$a := 1" = "Vars.a := 1"
  /\ Preprocessor "{{ $a := 1 }}" = Some "{{ $.Vars.a = 1 : }}"
  /\ Preprocessor "{{ $a := 1 }}" <> Some "{{ $a := 1 }}"
  /\ (forall fuel, Preprocessor_loop fuel "{{ $a:= 1 }}" EmptyString = None).
Proof.
  split; [exact replaceVars_declaration|].
  repeat split; try reflexivity; [discriminate|].
  intros [|fuel]; reflexivity.
Qed.

Lemma C7_spaced_declaration_is_rewritten_witness :
  replaceVars "$a:= 1" = "$a:= 1" /\ replaceVars "$user.id= 5" = "$user.id= 5".
Proof.
  split.
  - exact (proj1 C7_spaced_declaration_is_rewritten "a" ":= 1" eq_refl eq_refl eq_refl).
  - apply (proj1 C7_spaced_declaration_is_rewritten "user.id" "= 5"); reflexivity.
Defined.

(** * Further properties of the code *)

(** ** splitTopLevel *)

Lemma splitTopLevel_loop_parts (sep : rune) (s : list rune) (level : nat)
  (cur : list rune) (parts : list (list rune)) :
  splitTopLevel_loop sep level cur parts s
  = (parts ++ splitTopLevel_loop sep level cur [] s)%list.
Proof.
  revert level cur parts. induction s as [|r s IH]; intros level cur parts; [reflexivity|].
  cbn [splitTopLevel_loop].
  destruct ((r =? sep)%N && (nextLevel level r =? 0)%nat).
  - rewrite IH. rewrite (IH _ _ ([] ++ [cur])%list). now rewrite <- app_assoc.
  - apply IH.
Qed.

Lemma splitTopLevel_loop_nonempty (sep : rune) (s : list rune) (level : nat)
  (cur : list rune) (parts : list (list rune)) :
  splitTopLevel_loop sep level cur parts s <> [].
Proof.
  revert level cur parts. induction s as [|r s IH]; intros level cur parts.
  - cbn. now destruct parts.
  - cbn [splitTopLevel_loop]. destruct ((r =? sep)%N && _); apply IH.
Qed.

Lemma joinRunes_loop (sep : rune) (s : list rune) (level : nat) (cur : list rune) :
  joinRunes sep (splitTopLevel_loop sep level cur [] s) = (cur ++ s)%list.
Proof.
  revert level cur. induction s as [|r s IH]; intros level cur.
  - cbn. now rewrite app_nil_r.
  - cbn [splitTopLevel_loop].
    destruct ((r =? sep)%N && (nextLevel level r =? 0)%nat) eqn:E.
    + apply andb_prop in E as [Er _]. apply N.eqb_eq in Er. subst r.
      rewrite splitTopLevel_loop_parts. cbn [app].
      pose proof (splitTopLevel_loop_nonempty sep s (nextLevel level sep) [] []) as Hne.
      specialize (IH (nextLevel level sep) []).
      destruct (splitTopLevel_loop sep (nextLevel level sep) [] [] s) as [|p ps];
        [congruence|].
      cbn [joinRunes] in *. fold (joinRunes sep (p :: ps)). now rewrite IH.
    + rewrite IH. now rewrite <- app_assoc.
Qed.

(** X1: joining the parts of [splitTopLevel] with the separator gives the
    string back, whatever the parentheses in it. *)
Theorem splitTopLevel_join :
  forall (s : list rune) (sep : rune), joinRunes sep (splitTopLevel s sep) = s.
Proof. intros s sep. unfold splitTopLevel. apply joinRunes_loop. Qed.

(** X2: a string in which no separator stands at level 0 (none at all, or
    each one inside parentheses) comes back as a single part, itself. *)
Theorem splitTopLevel_single :
  forall (s : list rune) (sep : rune),
    depthOK sep 0 s = true -> splitTopLevel s sep = [s].
Proof.
  intros s sep. unfold splitTopLevel.
  change [s] with [([] ++ s)%list]. generalize (@nil rune) as cur. generalize 0 as level.
  induction s as [|r s IH]; intros level cur H.
  - cbn. now rewrite app_nil_r.
  - cbn [depthOK] in H. apply andb_prop in H as [Hr Hs]. apply negb_true_iff in Hr.
    cbn [splitTopLevel_loop]. rewrite Hr, (IH _ _ Hs). now rewrite <- app_assoc.
Qed.

Lemma splitTopLevel_single_witness :
  splitTopLevel [102; 40; 97; 44; 98; 41]%N 44%N = [[102; 40; 97; 44; 98; 41]%N].
Proof. apply splitTopLevel_single. reflexivity. Defined.

(** ** The separator loop of Thousand *)

Lemma rev_string_length (s : string) : String.length (rev_string s) = String.length s.
Proof.
  induction s as [|c s IH]; [reflexivity|].
  cbn [rev_string]. rewrite append_length, IH. cbn [String.length]. lia.
Qed.

Lemma groupLoop_app (dot r t : string) (count : nat) (result : string) :
  groupLoop dot (r ++ t) count result
  = groupLoop dot t (count + String.length r) (groupLoop dot r count result).
Proof.
  revert count result. induction r as [|c r IH]; intros count result.
  - cbn [append String.length groupLoop]. now rewrite Nat.add_0_r.
  - cbn [append String.length groupLoop]. rewrite IH. f_equal. lia.
Qed.

Lemma groupThousands_cons :
  forall (dot : string) (c : ascii) (s : string),
    groupThousands dot (String c s)
    = byteString c
      ++ (if (0 <? String.length s)%nat && (String.length s mod 3 =? 0)%nat
          then dot ++ groupThousands dot s
          else groupThousands dot s).
Proof.
  intros dot c s. unfold groupThousands. cbn [rev_string].
  rewrite groupLoop_app. cbn [Nat.add groupLoop]. now rewrite rev_string_length.
Qed.

(** X3: read from the front, the loop writes each byte of the integer part
    and, after it, the separator when the bytes that follow number a
    positive multiple of three. *)
Theorem groupThousands_front :
  forall (dot : string) (c : ascii) (s : string),
    groupThousands dot (String c s)
    = byteString c
      ++ (if (0 <? String.length s)%nat && (String.length s mod 3 =? 0)%nat
          then dot ++ groupThousands dot s
          else groupThousands dot s).
Proof. exact groupThousands_cons. Qed.

(** X4: the sign of a negative integer part is counted as a digit: when
    the digits after it number a positive multiple of three, the separator
    comes right after the sign, as in [-.123]. *)
Theorem groupThousands_sign :
  forall (dot s : string) (k : nat),
    String.length s = 3 * S k ->
    groupThousands dot (String "-" s) = "-" ++ dot ++ groupThousands dot s.
Proof.
  intros dot s k Hlen. rewrite groupThousands_cons, Hlen.
  replace (3 * S k) with (S k * 3) by lia. rewrite Nat.Div0.mod_mul.
  reflexivity.
Qed.

Lemma groupThousands_sign_witness :
  groupThousands "." "-123" = "-.123" /\ groupThousands "," "-123456" = "-,123,456".
Proof.
  split.
  - exact (groupThousands_sign "." "123" 0 eq_refl).
  - exact (groupThousands_sign "," "123456" 1 eq_refl).
Defined.

(** ** pow10 *)

(** X5: [pow10 n] is 1 for [n <= 0] and exactly the integer [10^n] for
    [0 <= n <= 22]; at 23 the float64 product is no longer that integer. *)
Theorem pow10_exact :
  (forall n, (n <= 0)%Z -> pow10 n = 1%float)
  /\ (forall n, (0 <= n <= 22)%Z -> exactZ (pow10 n) = Some (10 ^ n)%Z)
  /\ exactZ (pow10 23) <> Some (10 ^ 23)%Z.
Proof.
  split; [|split].
  - intros n Hn. unfold pow10. now replace (Z.to_nat n) with 0 by lia.
  - intros n Hn.
    assert (Hall : forallb (fun k => match exactZ (pow10 (Z.of_nat k)) with
                                     | Some z => (z =? 10 ^ Z.of_nat k)%Z
                                     | None => false
                                     end) (seq 0 23) = true) by (vm_compute; reflexivity).
    rewrite forallb_forall in Hall.
    specialize (Hall (Z.to_nat n)). rewrite Z2Nat.id in Hall by lia.
    assert (Hin : In (Z.to_nat n) (seq 0 23)) by (apply in_seq; lia).
    specialize (Hall Hin). destruct (exactZ (pow10 n)) as [z|]; [|discriminate Hall].
    apply Z.eqb_eq in Hall. now subst z.
  - vm_compute. discriminate.
Qed.

Lemma pow10_exact_witness :
  pow10 (-3) = 1%float /\ exactZ (pow10 2) = Some 100%Z.
Proof.
  destruct pow10_exact as (H1 & H2 & _). split.
  - apply H1. lia.
  - apply (H2 2%Z). lia.
Defined.

(** ** Div *)

Lemma divLoop_nonzero (toFloatRV : Value -> float) (prev : list Value) (left : float) :
  existsb (fun v => PrimFloat.eqb (toFloatRV v) 0%float) prev = false ->
  divLoop toFloatRV left prev
  = RV (fold_left (fun acc v => PrimFloat.div acc (toFloatRV v)) prev left).
Proof.
  revert left. induction prev as [|v prev IH]; intros left H; [reflexivity|].
  cbn [existsb] in H. apply orb_false_elim in H as [Hv Hprev].
  cbn [divLoop fold_left]. rewrite Hv. now apply IH.
Qed.

(** X6: Div returns zero for no operand and when an operand before the last
    one coerces to a float64 equal to zero; otherwise it returns the last
    operand divided by the earlier ones in order.  *)
Theorem Div_characterised :
  forall (toFloatRV : Value -> float),
    Div toFloatRV [] = RV 0%float
    /\ forall prev last,
         Div toFloatRV (prev ++ [last])
         = if existsb (fun v => PrimFloat.eqb (toFloatRV v) 0%float) prev
           then RV 0%float
           else RV (fold_left (fun acc v => PrimFloat.div acc (toFloatRV v)) prev
                      (toFloatRV last)).
Proof.
  intros toFloatRV. split; [reflexivity|]. intros prev last.
  unfold Div. rewrite unsnoc_snoc.
  destruct (existsb (fun v => PrimFloat.eqb (toFloatRV v) 0%float) prev) eqn:E.
  - apply existsb_exists in E as (d & Hin & Hd). now apply divLoop_zero with d.
  - now apply divLoop_nonzero.
Qed.

(** ** The lexer *)

(** X7: the lexer returns on an expression exactly when the expression
    holds no '$': without one it returns within [length expr + 1]
    iterations, with one it returns after no number of iterations. *)
Theorem tokenize_returns_iff_no_dollar :
  forall expr : string,
    (free "$" expr = true -> exists tokens, tokenize expr = Some tokens)
    /\ (free "$" expr = false ->
        forall fuel tokens, tokenize_loop fuel expr tokens = None).
Proof.
  intros expr. split.
  - apply tokenize_returns.
  - intros H fuel tokens. now apply tokenize_loop_diverges.
Qed.

Lemma tokenize_returns_iff_no_dollar_witness :
  (exists tokens, tokenize "a + b" = Some tokens)
  /\ forall fuel tokens, tokenize_loop fuel "$ + b" tokens = None.
Proof.
  split.
  - apply (proj1 (tokenize_returns_iff_no_dollar "a + b")). reflexivity.
  - apply (proj2 (tokenize_returns_iff_no_dollar "$ + b")). reflexivity.
Defined.










(** ** The ternary desugarer *)

Lemma unsnoc_Some {A : Type} (l l' : list A) (x : A) :
  unsnoc l = Some (l', x) -> l = (l' ++ [x])%list.
Proof.
  unfold unsnoc. destruct (rev l) as [|y r] eqn:E; [discriminate|].
  intros [= <- <-]. rewrite <- (rev_involutive l), E. reflexivity.
Qed.

Lemma unsnoc_None {A : Type} (l : list A) : unsnoc l = None -> l = [].
Proof.
  unfold unsnoc. destruct (rev l) as [|y r] eqn:E; [|discriminate].
  intros _. rewrite <- (rev_involutive l), E. reflexivity.
Qed.

Lemma findColon_split (ts : list Token) (depth : nat) (tb fb : list Token) :
  findColon depth ts = Some (tb, fb) ->
  exists c, ts = (tb ++ c :: fb)%list /\ isOp ":" c = true.
Proof.
  revert depth tb fb. induction ts as [|t ts IH]; intros depth tb fb H; [discriminate H|].
  cbn [findColon] in H.
  destruct (isOp "?" t).
  - destruct (findColon (S depth) ts) as [[tb' fb']|] eqn:E; [|discriminate H].
    injection H as <- <-. destruct (IH _ _ _ E) as (c & -> & Hc). now exists c.
  - destruct (isOp ":" t) eqn:Et.
    + destruct depth as [|d].
      * injection H as <- <-. now exists t.
      * destruct (findColon d ts) as [[tb' fb']|] eqn:E; [|discriminate H].
        injection H as <- <-. destruct (IH _ _ _ E) as (c & -> & Hc). now exists c.
    + destruct (findColon depth ts) as [[tb' fb']|] eqn:E; [|discriminate H].
      injection H as <- <-. destruct (IH _ _ _ E) as (c & -> & Hc). now exists c.
Qed.

Lemma parseTernary_loop_shape (tokens out : list Token) :
  parseTernary_loop tokens out = (out ++ tokens)%list
  \/ exists pre cond q tb c fb,
       (out ++ tokens = pre ++ cond :: q :: tb ++ c :: fb)%list
       /\ isOp "?" q = true /\ isOp ":" c = true
       /\ parseTernary_loop tokens out = (pre ++ [mkToken Tern (ternText cond tb fb)])%list.
Proof.
  revert out. induction tokens as [|tok rest IH]; intros out.
  - left. cbn. now rewrite app_nil_r.
  - cbn [parseTernary_loop]. destruct (isOp "?" tok) eqn:Eq.
    + destruct (unsnoc out) as [[out' cond]|] eqn:Eu.
      * apply unsnoc_Some in Eu. subst out.
        destruct (findColon 0 rest) as [[tb fb]|] eqn:Ec.
        -- right. destruct (findColon_split _ _ _ _ Ec) as (c & -> & Hc).
           exists out', cond, tok, tb, c, fb. repeat split; try assumption.
           now rewrite <- app_assoc.
        -- now left.
      * apply unsnoc_None in Eu. subst out.
        destruct (IH ([] ++ [tok])%list) as [H | H]; [left | right]; exact H.
    + destruct (IH (out ++ [tok])%list) as [H | H].
      * left. rewrite H. now rewrite <- app_assoc.
      * right. destruct H as (pre & cond & q & tb & c & fb & He & H).
        exists pre, cond, q, tb, c, fb. split; [|exact H].
        rewrite <- He. now rewrite <- app_assoc.
Qed.

(** X9: the desugarer either returns its tokens as they are, or it has
    found a condition token, a '?', a true branch, the matching ':' and a
    false branch that runs to the end, and returns what precedes the
    condition followed by one Tern token that packs the three texts. *)
Theorem parseTernary_shape :
  forall tokens : list Token,
    parseTernary tokens = tokens
    \/ exists pre cond q tb c fb,
         (tokens = pre ++ cond :: q :: tb ++ c :: fb)%list
         /\ isOp "?" q = true /\ isOp ":" c = true
         /\ parseTernary tokens = (pre ++ [mkToken Tern (ternText cond tb fb)])%list.
Proof. intros tokens. exact (parseTernary_loop_shape tokens []). Qed.

Lemma parseTernary_loop_plain (tokens out : list Token) :
  existsb (isOp "?") tokens = false -> parseTernary_loop tokens out = (out ++ tokens)%list.
Proof.
  revert out. induction tokens as [|tok rest IH]; intros out H.
  - cbn. now rewrite app_nil_r.
  - cbn [existsb] in H. apply orb_false_elim in H as [Ht Hrest].
    cbn [parseTernary_loop]. rewrite Ht, IH by assumption. now rewrite <- app_assoc.
Qed.

(** X10: tokens without a '?' operator go through the desugarer
    unchanged. *)
Theorem parseTernary_plain :
  forall tokens : list Token,
    existsb (isOp "?") tokens = false -> parseTernary tokens = tokens.
Proof. intros tokens H. now apply (parseTernary_loop_plain tokens []). Qed.

Lemma parseTernary_plain_witness :
  parseTernary [mkToken Var "a"; mkToken Op ":"; mkToken Num "1"]
  = [mkToken Var "a"; mkToken Op ":"; mkToken Num "1"].
Proof. apply parseTernary_plain. reflexivity. Defined.

(** X11: a '?' that no ':' can match leaves the tokens unchanged: tokens
    without a ':' operator go through the desugarer as they are, whatever
    the '?' among them. *)
Theorem parseTernary_no_colon :
  forall tokens : list Token,
    existsb (isOp ":") tokens = false -> parseTernary tokens = tokens.
Proof.
  intros tokens Hno.
  destruct (parseTernary_loop_shape tokens []) as [H | H]; [exact H|].
  destruct H as (pre & cond & q & tb & c & fb & He & _ & Hc & _).
  cbn [app] in He.
  assert (Hin : In c tokens) by (rewrite He, !in_app_iff; cbn; rewrite in_app_iff; cbn; auto 10).
  assert (Hex : existsb (isOp ":") tokens = true) by (apply existsb_exists; now exists c).
  congruence.
Qed.

Lemma parseTernary_no_colon_witness :
  parseTernary [mkToken Num "1"; mkToken Op "?"; mkToken Num "2"]
  = [mkToken Num "1"; mkToken Op "?"; mkToken Num "2"].
Proof. apply parseTernary_no_colon. reflexivity. Defined.

(** ** The parser's output queue *)

Lemma popToParen_operands (stack out : list Token) :
  filter isOperand stack = [] ->
  filter isOperand (fst (popToParen out stack)) = filter isOperand out
  /\ filter isOperand (snd (popToParen out stack)) = [].
Proof.
  revert out. induction stack as [|top stack IH]; intros out H; [now split|].
  cbn [filter] in H. destruct (isOperand top) eqn:Etop; [discriminate H|].
  cbn [popToParen]. destruct (String.eqb (value top) "("); [now split|].
  destruct (IH (out ++ [top])%list H) as [H1 H2]. split; [|exact H2].
  rewrite H1, filter_app. cbn [filter]. rewrite Etop. now rewrite app_nil_r.
Qed.

Lemma popOps_operands (tok : Token) (stack out : list Token) :
  filter isOperand stack = [] ->
  filter isOperand (fst (popOps tok out stack)) = filter isOperand out
  /\ filter isOperand (snd (popOps tok out stack)) = [].
Proof.
  revert out. induction stack as [|top stack IH]; intros out H; [now split|].
  pose proof H as H'. cbn [filter] in H'.
  destruct (isOperand top) eqn:Etop; [discriminate H'|].
  cbn [popOps]. destruct (TokenType_eqb (typ top) Op && _); [|now split].
  destruct (IH (out ++ [top])%list H') as [H1 H2]. split; [|exact H2].
  rewrite H1, filter_app. cbn [filter]. rewrite Etop. now rewrite app_nil_r.
Qed.

Lemma rpnStep_operands (out stack : list Token) (tok : Token) :
  filter isOperand stack = [] ->
  filter isOperand (fst (rpnStep (out, stack) tok))
  = (filter isOperand out ++ filter isOperand [tok])%list
  /\ filter isOperand (snd (rpnStep (out, stack) tok)) = [].
Proof.
  intros H. unfold rpnStep. cbn [filter].
  destruct (typ tok) eqn:Et;
    try (assert (Eop : isOperand tok = true) by (unfold isOperand; now rewrite Et));
    try (assert (Eop : isOperand tok = false) by (unfold isOperand; now rewrite Et));
    rewrite Eop.
  - cbn [fst snd]. rewrite filter_app. cbn [filter]. now rewrite Eop.
  - cbn [fst snd]. rewrite filter_app. cbn [filter]. now rewrite Eop.
  - rewrite app_nil_r. destruct (String.eqb (value tok) "(").
    + cbn [fst snd filter]. now rewrite Eop.
    + destruct (String.eqb (value tok) ")"); [now apply popToParen_operands|].
      destruct (popOps_operands tok stack out H) as [H1 H2].
      destruct (popOps tok out stack) as [out' stack']. cbn [fst snd filter] in *.
      now rewrite Eop.
  - rewrite app_nil_r. destruct (String.eqb (value tok) "(").
    + cbn [fst snd filter]. now rewrite Eop.
    + now apply popToParen_operands.
  - cbn [fst snd]. rewrite filter_app. cbn [filter]. now rewrite Eop.
Qed.

Lemma rpnRun_operands (tokens out stack : list Token) :
  filter isOperand stack = [] ->
  filter isOperand (fst (rpnRun (out, stack) tokens))
  = (filter isOperand out ++ filter isOperand tokens)%list
  /\ filter isOperand (snd (rpnRun (out, stack) tokens)) = [].
Proof.
  revert out stack. induction tokens as [|tok tokens IH]; intros out stack H.
  - cbn. now rewrite app_nil_r.
  - unfold rpnRun in *. cbn [fold_left].
    destruct (rpnStep_operands out stack tok H) as [H1 H2].
    destruct (rpnStep (out, stack) tok) as [out' stack']. cbn [fst snd] in *.
    destruct (IH out' stack' H2) as [H3 H4]. split; [|exact H4].
    rewrite H3, H1, <- app_assoc. f_equal.
    change (tok :: tokens) with ([tok] ++ tokens)%list. now rewrite filter_app.
Qed.

(** X12: the parser moves operators only: the Var, Num and Tern tokens of
    its output are those of its input, in the same order. *)
Theorem toRPN_keeps_operands :
  forall tokens : list Token,
    filter isOperand (toRPN tokens) = filter isOperand tokens.
Proof.
  intros tokens. unfold toRPN, rpnFlush.
  destruct (rpnRun_operands tokens [] [] eq_refl) as [H1 H2].
  rewrite filter_app, H1, H2. cbn [filter app]. now rewrite app_nil_r.
Qed.

Lemma popToParen_Forall (P : Token -> Prop) (stack out : list Token) :
  Forall P out -> Forall P stack ->
  Forall P (fst (popToParen out stack)) /\ Forall P (snd (popToParen out stack)).
Proof.
  revert out. induction stack as [|top stack IH]; intros out Ho Hs; [now split|].
  inversion Hs as [|? ? Htop Hrest]; subst.
  cbn [popToParen]. destruct (String.eqb (value top) "("); [now split|].
  apply IH; [|exact Hrest]. apply Forall_app. split; [exact Ho | now constructor].
Qed.

Lemma popOps_Forall (P : Token -> Prop) (tok : Token) (stack out : list Token) :
  Forall P out -> Forall P stack ->
  Forall P (fst (popOps tok out stack)) /\ Forall P (snd (popOps tok out stack)).
Proof.
  revert out. induction stack as [|top stack IH]; intros out Ho Hs; [now split|].
  pose proof Hs as Hs'. inversion Hs as [|? ? Htop Hrest]; subst.
  cbn [popOps]. destruct (TokenType_eqb (typ top) Op && _); [|now split].
  apply IH; [|exact Hrest]. apply Forall_app. split; [exact Ho | now constructor].
Qed.

Lemma rpnStep_Forall (P : Token -> Prop) (out stack : list Token) (tok : Token) :
  (closesParen tok = false -> P tok) ->
  Forall P out -> Forall P stack ->
  Forall P (fst (rpnStep (out, stack) tok)) /\ Forall P (snd (rpnStep (out, stack) tok)).
Proof.
  intros Htok Ho Hs. unfold rpnStep. unfold closesParen in Htok.
  destruct (typ tok).
  - cbn [fst snd]. split; [|exact Hs]. apply Forall_app. split; [exact Ho|]. auto.
  - cbn [fst snd]. split; [|exact Hs]. apply Forall_app. split; [exact Ho|]. auto.
  - destruct (String.eqb (value tok) "(") eqn:E1.
    + cbn [fst snd]. split; [exact Ho|]. constructor; [|exact Hs].
      apply Htok. apply String.eqb_eq in E1. now rewrite E1.
    + destruct (String.eqb (value tok) ")") eqn:E2; [now apply popToParen_Forall|].
      destruct (popOps_Forall P tok stack out Ho Hs) as [H1 H2].
      destruct (popOps tok out stack) as [out' stack']. cbn [fst snd] in *.
      split; [exact H1|]. constructor; [now apply Htok | exact H2].
  - destruct (String.eqb (value tok) "(") eqn:E1.
    + cbn [fst snd]. split; [exact Ho|]. constructor; [|exact Hs]. now apply Htok.
    + now apply popToParen_Forall.
  - cbn [fst snd]. split; [|exact Hs]. apply Forall_app. split; [exact Ho|]. auto.
Qed.

Lemma rpnRun_Forall (P : Token -> Prop) (tokens out stack : list Token) :
  (forall tok, In tok tokens -> closesParen tok = false -> P tok) ->
  Forall P out -> Forall P stack ->
  Forall P (fst (rpnRun (out, stack) tokens)) /\ Forall P (snd (rpnRun (out, stack) tokens)).
Proof.
  revert out stack. induction tokens as [|tok tokens IH]; intros out stack Htok Ho Hs;
    [now split|].
  unfold rpnRun in *. cbn [fold_left].
  destruct (rpnStep_Forall P out stack tok) as [H1 H2]; try assumption.
  { apply Htok. now left. }
  destruct (rpnStep (out, stack) tok) as [out' stack']. cbn [fst snd] in *.
  apply IH; try assumption. intros t Ht. apply Htok. now right.
Qed.

(** X13: every token of the parser's output is a token of its input, and
    none is a closing parenthesis: closing parentheses are always dropped
    (an opening one that is never closed is not). *)
Theorem toRPN_drops_closing_parens :
  forall (tokens : list Token) (t : Token),
    In t (toRPN tokens) -> In t tokens /\ closesParen t = false.
Proof.
  intros tokens t Hin. unfold toRPN, rpnFlush in Hin.
  assert (H : Forall (fun t => In t tokens /\ closesParen t = false)
                (fst (rpnRun ([], []) tokens))
              /\ Forall (fun t => In t tokens /\ closesParen t = false)
                   (snd (rpnRun ([], []) tokens))).
  { apply rpnRun_Forall; [|constructor|constructor]. intros tok Ht Hc. now split. }
  destruct H as [H1 H2].
  apply in_app_iff in Hin as [Hin | Hin];
    [rewrite Forall_forall in H1; now apply H1 | rewrite Forall_forall in H2; now apply H2].
Qed.

Lemma toRPN_drops_closing_parens_witness :
  In (mkToken Paren "(") [mkToken Paren "("; mkToken Num "1"]
  /\ closesParen (mkToken Paren "(") = false.
Proof.
  apply (toRPN_drops_closing_parens [mkToken Paren "("; mkToken Num "1"]).
  right. left. reflexivity.
Defined.

(** ** Chains of binary operators *)

Lemma rpnStep_operand (out stack : list Token) (x : Token) :
  isOperand x = true -> rpnStep (out, stack) x = ((out ++ [x])%list, stack).
Proof. unfold isOperand, rpnStep. now destruct (typ x). Qed.

Lemma rpnStep_infixOp_empty (out : list Token) (op : Token) :
  isInfixOp op = true -> rpnStep (out, []) op = (out, [op]).
Proof.
  unfold isInfixOp, rpnStep. intros H.
  apply andb_prop in H as [H H3]. apply andb_prop in H as [H1 H2].
  destruct (typ op); try discriminate H1.
  apply negb_true_iff in H2, H3. now rewrite H2, H3.
Qed.

Lemma rpnStep_infixOp_pop (out : list Token) (top op : Token) :
  isInfixOp top = true -> isInfixOp op = true ->
  (precedence (value op) <=? precedence (value top))%Z = true ->
  rpnStep (out, [top]) op = ((out ++ [top])%list, [op]).
Proof.
  unfold isInfixOp, rpnStep. intros Ht H Hp.
  apply andb_prop in Ht as [Ht _]. apply andb_prop in Ht as [Ht _].
  apply andb_prop in H as [H H3]. apply andb_prop in H as [H1 H2].
  destruct (typ op); try discriminate H1.
  apply negb_true_iff in H2, H3. rewrite H2, H3.
  cbn [popOps]. now rewrite Ht, Hp.
Qed.

Lemma rpnRun_chain (links : list (Token * Token)) (out : list Token) (op : Token) :
  isInfixOp op = true ->
  forallb (fun l => isInfixOp (fst l) && isOperand (snd l)) links = true ->
  descending (precedence (value op)) links = true ->
  rpnFlush (rpnRun (out, [op]) (flat_map (fun l => [fst l; snd l]) links))
  = (out ++ op :: flat_map (fun l => [snd l; fst l]) links)%list.
Proof.
  revert out op. induction links as [|[op2 x2] links IH]; intros out op Hop Hall Hdesc.
  - reflexivity.
  - cbn [forallb fst snd] in Hall. apply andb_prop in Hall as [Hl Hall].
    apply andb_prop in Hl as [Hop2 Hx2].
    cbn [descending fst] in Hdesc. apply andb_prop in Hdesc as [Hp Hdesc].
    cbn [flat_map fst snd app]. unfold rpnRun. cbn [fold_left].
    rewrite (rpnStep_infixOp_pop out op op2 Hop Hop2 Hp).
    rewrite (rpnStep_operand _ _ x2 Hx2).
    fold (rpnRun ((out ++ [op]) ++ [x2], [op2])%list
            (flat_map (fun l => [fst l; snd l]) links)).
    rewrite (IH _ op2 Hop2 Hall Hdesc). now rewrite <- !app_assoc.
Qed.

Lemma toRPN_infixChain :
  forall (x0 : Token) (links : list (Token * Token)),
    isOperand x0 = true ->
    forallb (fun l => isInfixOp (fst l) && isOperand (snd l)) links = true ->
    descendingChain links = true ->
    toRPN (infixChain x0 links) = postfixChain x0 links.
Proof.
  intros x0 links Hx0 Hall Hdesc. unfold toRPN, infixChain, postfixChain.
  unfold rpnRun. cbn [fold_left]. rewrite (rpnStep_operand _ _ x0 Hx0). cbn [app].
  destruct links as [|[op1 x1] links]; [reflexivity|].
  cbn [forallb fst snd] in Hall. apply andb_prop in Hall as [Hl Hall].
  apply andb_prop in Hl as [Hop1 Hx1]. cbn [descendingChain fst] in Hdesc.
  cbn [flat_map fst snd app fold_left].
  rewrite (rpnStep_infixOp_empty _ op1 Hop1), (rpnStep_operand _ _ x1 Hx1).
  fold (rpnRun (([x0] ++ [x1])%list, [op1]) (flat_map (fun l => [fst l; snd l]) links)).
  now rewrite (rpnRun_chain links _ op1 Hop1 Hall Hdesc).
Qed.

(** X14: on a chain [x0 op1 x1 op2 x2 ...] without parentheses in which
    each operator binds no tighter than the one before it (as when they all
    have one precedence), the parser groups to the left: its output is
    [x0 x1 op1 x2 op2 ...]. *)
Theorem toRPN_chain :
  forall (x0 : Token) (links : list (Token * Token)),
    isOperand x0 = true ->
    forallb (fun l => isInfixOp (fst l) && isOperand (snd l)) links = true ->
    descendingChain links = true ->
    toRPN (infixChain x0 links) = postfixChain x0 links.
Proof. exact toRPN_infixChain. Qed.

Lemma toRPN_chain_witness :
  toRPN [mkToken Var "a"; mkToken Op "*"; mkToken Var "b"; mkToken Op "-"; mkToken Num "1";
         mkToken Op "+"; mkToken Var "c"]
  = [mkToken Var "a"; mkToken Var "b"; mkToken Op "*"; mkToken Num "1"; mkToken Op "-";
     mkToken Var "c"; mkToken Op "+"].
Proof.
  apply (toRPN_chain (mkToken Var "a")
           [(mkToken Op "*", mkToken Var "b"); (mkToken Op "-", mkToken Num "1");
            (mkToken Op "+", mkToken Var "c")]); reflexivity.
Defined.

Lemma rpnToPipeline_loop_chain (original : string) (links : list (Token * Token))
  (acc : string) :
  forallb (fun l => isBinary (fst l) && isAtom (snd l)) links = true ->
  rpnToPipeline_loop original [acc] (flat_map (fun l => [snd l; fst l]) links)
  = chainText acc links.
Proof.
  revert acc. induction links as [|[op x] links IH]; intros acc Hall; [reflexivity|].
  cbn [forallb fst snd] in Hall. apply andb_prop in Hall as [Hl Hall].
  apply andb_prop in Hl as [Hop Hx].
  unfold isBinary in Hop.
  apply andb_prop in Hop as [Hop Hfn]. apply andb_prop in Hop as [Hop Hc].
  apply andb_prop in Hop as [Hop Ho]. apply andb_prop in Hop as [Hty Hnot].
  apply negb_true_iff in Hnot.
  cbn [flat_map fst snd app rpnToPipeline_loop chainText].
  unfold isAtom in Hx. unfold fnName.
  destruct (typ x); try discriminate Hx;
    destruct (typ op); try discriminate Hty;
    destruct (lookup (value op) opMap) as [fn|]; try discriminate Hfn;
    rewrite Hnot; now apply IH.
Qed.

Lemma rpnToPipeline_postfixChain :
  forall (x0 : Token) (links : list (Token * Token)),
    isAtom x0 = true ->
    forallb (fun l => isBinary (fst l) && isAtom (snd l)) links = true ->
    rpnToPipeline (postfixChain x0 links) = chainText (value x0) links.
Proof.
  intros x0 links Hx0 Hall. unfold rpnToPipeline, postfixChain.
  cbn [rpnToPipeline_loop]. unfold isAtom in Hx0.
  destruct (typ x0); try discriminate Hx0; now apply rpnToPipeline_loop_chain.
Qed.

(** X15: from the postfix form [x0 x1 op1 x2 op2 ...] of a chain of binary
    operators of the operator table over Var and Num tokens, the generator
    writes [x0 | fn1 x1 | fn2 x2 ...], one stage per operator, whatever the
    length of the chain. *)
Theorem rpnToPipeline_chain :
  forall (x0 : Token) (links : list (Token * Token)),
    isAtom x0 = true ->
    forallb (fun l => isBinary (fst l) && isAtom (snd l)) links = true ->
    rpnToPipeline (postfixChain x0 links) = chainText (value x0) links.
Proof. exact rpnToPipeline_postfixChain. Qed.

Lemma rpnToPipeline_chain_witness :
  rpnToPipeline [mkToken Var "a"; mkToken Num "2"; mkToken Op "-"; mkToken Var "b";
                 mkToken Op "=="]
  = "a | sub 2 | eq b".
Proof.
  apply (rpnToPipeline_chain (mkToken Var "a")
           [(mkToken Op "-", mkToken Num "2"); (mkToken Op "==", mkToken Var "b")]);
    reflexivity.
Defined.

Lemma isBinary_isInfixOp (t : Token) : isBinary t = true -> isInfixOp t = true.
Proof.
  unfold isBinary, isInfixOp. intros H.
  apply andb_prop in H as [H _]. apply andb_prop in H as [H Hc].
  apply andb_prop in H as [H Ho]. apply andb_prop in H as [Hty _].
  now rewrite Hty, Ho, Hc.
Qed.

Lemma isAtom_isOperand (t : Token) : isAtom t = true -> isOperand t = true.
Proof. unfold isAtom, isOperand. now destruct (typ t). Qed.

(** X16: parser and generator together turn a chain [x0 op1 x1 op2 x2 ...]
    of binary operators over Var and Num tokens, each operator binding no
    tighter than the one before it, into the stages
    [x0 | fn1 x1 | fn2 x2 ...] in source order. *)
Theorem chain_to_pipeline :
  forall (x0 : Token) (links : list (Token * Token)),
    isAtom x0 = true ->
    forallb (fun l => isBinary (fst l) && isAtom (snd l)) links = true ->
    descendingChain links = true ->
    rpnToPipeline (toRPN (infixChain x0 links)) = chainText (value x0) links.
Proof.
  intros x0 links Hx0 Hall Hdesc.
  rewrite toRPN_infixChain;
    [now apply rpnToPipeline_postfixChain | now apply isAtom_isOperand | | exact Hdesc].
  apply forallb_forall. intros l Hl. rewrite forallb_forall in Hall.
  specialize (Hall l Hl). apply andb_prop in Hall as [H1 H2].
  now rewrite (isBinary_isInfixOp _ H1), (isAtom_isOperand _ H2).
Qed.

Lemma chain_to_pipeline_witness :
  rpnToPipeline (toRPN [mkToken Num "10"; mkToken Op "-"; mkToken Num "3"; mkToken Op "-";
                        mkToken Num "2"; mkToken Op "+"; mkToken Var "x"])
  = "10 | sub 3 | sub 2 | add x".
Proof.
  apply (chain_to_pipeline (mkToken Num "10")
           [(mkToken Op "-", mkToken Num "3"); (mkToken Op "-", mkToken Num "2");
            (mkToken Op "+", mkToken Var "x")]); reflexivity.
Defined.

(** ** The rewriter *)

(** X17: an expression without '$' goes through the rewriter unchanged. *)
Theorem replaceVars_no_dollar :
  forall expr : string, free "$" expr = true -> replaceVars expr = expr.
Proof.
  intros expr H. unfold replaceVars, FindAllStringIndex. now rewrite findAllRefs_free.
Qed.

Lemma replaceVars_no_dollar_witness : replaceVars "a.b + 1" = "a.b + 1".
Proof. apply replaceVars_no_dollar. reflexivity. Defined.

(** X18: when the pattern matches exactly [$name] at the start of the
    text, the text after it starts with no assignment marker and holds no
    further '$', the rewriter replaces the '$' by [Vars.] and leaves the
    rest as it is. *)
Theorem replaceVars_read :
  forall name after : string,
    matchRef (name ++ after) = Some (String.length name) ->
    declares after = false -> free "$" after = true ->
    replaceVars (String "$" (name ++ after)) = "Vars." ++ name ++ after.
Proof.
  intros name after Hmatch Hdecl Hfree.
  unfold replaceVars, FindAllStringIndex. cbn [findAllRefs].
  change (Ascii.eqb "$" "$") with true. cbv iota. rewrite Hmatch.
  rewrite findAllRefs_skip, findAllRefs_free by assumption.
  cbn [fold_left replaceStep]. cbn [Nat.add].
  set (expr := String "$" (name ++ after)).
  assert (Hdrop : drop (S (String.length name)) expr = after).
  { unfold expr. cbn [drop]. rewrite drop_app, drop_all by lia. reflexivity. }
  assert (Htake : slice 0 (S (String.length name)) expr = String "$" name).
  { unfold slice, expr. cbn [drop Nat.sub take]. now rewrite take_app, take_all by lia. }
  assert (Hafter : (if (S (String.length name) <? String.length expr)%nat
                    then drop (S (String.length name)) expr else EmptyString) = after).
  { rewrite Hdrop. destruct (S (String.length name) <? String.length expr)%nat eqn:E;
      [reflexivity|].
    apply Nat.ltb_ge in E. unfold expr in E. cbn [String.length] in E.
    rewrite append_length in E. destruct after; [reflexivity | cbn [String.length] in E; lia]. }
  rewrite Hafter. fold (declares after). rewrite Hdecl, Htake, Hdrop.
  unfold TrimPrefix. cbn [HasPrefix String.length drop append slice take].
  rewrite Ascii.eqb_refl. cbn [andb drop]. now rewrite append_assoc.
Qed.

Lemma replaceVars_read_witness :
  replaceVars "$user.name | upper" = "Vars.user.name | upper".
Proof. apply (replaceVars_read "user.name" " | upper"); reflexivity. Defined.

(** ** The orchestrator *)

Lemma free_take (x : ascii) (n : nat) (s : string) :
  free x s = true -> free x (take n s) = true.
Proof.
  revert s. induction n as [|n IH]; intros [|c s] H; cbn [take]; try reflexivity.
  cbn [free allb] in *. apply andb_prop in H as [Hc Hs]. rewrite Hc. now apply IH.
Qed.

Lemma free_drop (x : ascii) (n : nat) (s : string) :
  free x s = true -> free x (drop n s) = true.
Proof.
  revert s. induction n as [|n IH]; intros [|c s] H; cbn [drop]; try assumption.
  cbn [free allb] in H. apply andb_prop in H as [_ Hs]. now apply IH.
Qed.

Lemma free_TrimSpace (x : ascii) (s : string) :
  free x s = true -> free x (TrimSpace s) = true.
Proof.
  intros H. unfold TrimSpace, TrimRight, TrimLeft.
  assert (Hl : forall fuel t, free x t = true -> free x (TrimLeft_fuel fuel t) = true).
  { induction fuel as [|fuel IH]; intros t Ht; cbn [TrimLeft_fuel]; [exact Ht|].
    destruct (leadingSpace t); [apply IH; now apply free_drop | exact Ht]. }
  assert (Hr : forall fuel t, free x t = true -> free x (TrimRight_fuel fuel t) = true).
  { induction fuel as [|fuel IH]; intros t Ht; cbn [TrimRight_fuel]; [exact Ht|].
    destruct (trailingSpace t); [apply IH; now apply free_take | exact Ht]. }
  apply Hr, Hl, H.
Qed.

Lemma convertPlaceholder_returns (interior : string) :
  free "$" interior = true -> exists text, convertPlaceholder interior = Some text.
Proof.
  intros H. apply (free_TrimSpace "$") in H.
  unfold convertPlaceholder. rewrite (replaceVars_free _ H).
  destruct (ContainsAny (TrimSpace interior) "+-*/><=!&|?:"); [|eexists; reflexivity].
  destruct (tokenize_returns _ H) as (tokens & ->). eexists; reflexivity.
Qed.

(** X19: the orchestrator returns a result for every template without
    '$'. *)
Theorem Preprocessor_returns :
  forall tmpl : string, free "$" tmpl = true -> exists out, Preprocessor tmpl = Some out.
Proof.
  intros tmpl. unfold Preprocessor.
  generalize EmptyString as result.
  assert (Hfuel : String.length tmpl < S (String.length tmpl)) by lia.
  revert Hfuel. generalize (S (String.length tmpl)) as fuel. intros fuel. revert tmpl.
  induction fuel as [|fuel IH]; intros tmpl Hlen result Hfree; [lia|].
  cbn [Preprocessor_loop]. destruct tmpl as [|c tmpl]; [eexists; reflexivity|].
  destruct (Index (String c tmpl) "{{") as [idx|] eqn:Ei; [|eexists; reflexivity].
  destruct (Index (drop idx (String c tmpl)) "}}") as [endIdx|] eqn:Ee;
    [|eexists; reflexivity].
  destruct (convertPlaceholder_returns (slice 2 endIdx (drop idx (String c tmpl))))
    as (text & ->).
  { unfold slice. now apply free_take, free_drop, free_drop. }
  apply IH; [|now apply free_drop, free_drop].
  apply Index_bound in Ee. rewrite drop_length in Ee. rewrite !drop_length.
  cbn [String.length] in *. lia.
Qed.

Lemma Preprocessor_returns_witness :
  exists out, Preprocessor "<b>{{ price * qty }}</b> {{ .Name }}" = Some out.
Proof. apply Preprocessor_returns. reflexivity. Defined.

Lemma Preprocessor_loop_result (fuel : nat) (tmpl result : string) :
  Preprocessor_loop fuel tmpl result
  = option_map (append result) (Preprocessor_loop fuel tmpl EmptyString).
Proof.
  revert tmpl result. induction fuel as [|fuel IH]; intros tmpl result; [reflexivity|].
  cbn [Preprocessor_loop]. destruct tmpl as [|c tmpl].
  { cbn. now rewrite append_nil_r. }
  destruct (Index (String c tmpl) "{{") as [idx|]; [|reflexivity].
  destruct (Index (drop idx (String c tmpl)) "}}") as [endIdx|].
  - destruct (convertPlaceholder _) as [text|]; [|reflexivity].
    rewrite IH. rewrite (IH _ ((EmptyString ++ _) ++ text)).
    destruct (Preprocessor_loop fuel _ EmptyString); [|reflexivity].
    cbn [option_map append]. now rewrite !append_assoc.
  - cbn [option_map append]. now rewrite append_assoc.
Qed.

Lemma drop_past (s t : string) (k : nat) :
  drop (String.length s + k) (s ++ t) = drop k t.
Proof. induction s as [|c s IH]; [reflexivity | exact IH]. Qed.

Lemma Index_open_at (u v : string) :
  free "{" u = true -> Index (u ++ String "{" (String "{" v)) "{{" = Some (String.length u).
Proof.
  induction u as [|c u IH]; intros H; [destruct v; reflexivity|].
  cbn [free allb] in H. apply andb_prop in H as [Hc Hu].
  apply negb_true_iff in Hc. rewrite Ascii.eqb_sym in Hc.
  cbn [append Index HasPrefix String.length]. rewrite Hc. cbn [andb].
  now rewrite (IH Hu).
Qed.

(** X20: text without '{', then a placeholder whose interior holds no '}',
    then the rest: the result is that text as it is, then what the
    placeholder is converted to, then the result for the rest; there is no
    result when the conversion or the rest has none. *)
Theorem Preprocessor_first_placeholder :
  forall pre interior rest : string,
    free "{" pre = true -> free "}" interior = true ->
    Preprocessor (pre ++ "{{" ++ interior ++ "}}" ++ rest)
    = match convertPlaceholder interior with
      | None => None
      | Some text => option_map (fun out => pre ++ text ++ out) (Preprocessor rest)
      end.
Proof.
  intros pre interior rest Hpre Hint. unfold Preprocessor at 1.
  set (opened := "{{" ++ interior ++ "}}" ++ rest).
  assert (Hlen : String.length (pre ++ opened)
                 = 4 + (String.length pre + String.length interior + String.length rest)).
  { rewrite append_length. unfold opened. cbn [append String.length].
    rewrite append_length. cbn [String.length]. lia. }
  assert (Hidx : Index (pre ++ opened) "{{" = Some (String.length pre))
    by (unfold opened; now apply Index_open_at).
  assert (Hend : Index opened "}}" = Some (S (S (String.length interior)))).
  { unfold opened. cbn [append].
    change (String "{" (String "{" (interior ++ String "}" (String "}" rest))))
      with (String "{" (String "{" interior) ++ String "}" (String "}" rest)).
    apply (Index_close_at (String "{" (String "{" interior)) rest). exact Hint. }
  assert (Hslice : slice 2 (S (S (String.length interior))) opened = interior).
  { unfold slice, opened. cbn [append drop].
    replace (S (S (String.length interior)) - 2) with (String.length interior) by lia.
    now rewrite take_app, take_all by lia. }
  assert (Hdrop : drop (S (S (String.length interior)) + 2) opened = rest).
  { unfold opened. cbn [append].
    replace (S (S (String.length interior)) + 2) with (S (S (String.length interior + 2)))
      by lia.
    cbn [drop]. now rewrite drop_past. }
  assert (Htake : take (String.length pre) (pre ++ opened) = pre)
    by (now rewrite take_app, take_all by lia).
  assert (Hopened : drop (String.length pre) (pre ++ opened) = opened)
    by (now rewrite drop_app, drop_all by lia).
  remember (String.length (pre ++ opened)) as n eqn:En.
  remember (pre ++ opened) as tmpl eqn:Etmpl.
  destruct tmpl as [|c tmpl]; [cbn [String.length] in En; lia|].
  cbn [Preprocessor_loop].
  rewrite Hidx, Htake, Hopened, Hend, Hslice, Hdrop.
  destruct (convertPlaceholder interior) as [text|]; [|reflexivity].
  rewrite Preprocessor_loop_result.
  rewrite (Preprocessor_loop_fuel n (S (String.length rest)) rest) by lia.
  fold (Preprocessor rest).
  destruct (Preprocessor rest); [|reflexivity].
  cbn [option_map append]. now rewrite append_assoc.
Qed.

Lemma Preprocessor_first_placeholder_witness :
  Preprocessor ("Total: " ++ "{{" ++ " a * b " ++ "}}" ++ " EUR")
  = Some ("Total: " ++ "{{ a | mul b }}" ++ " EUR").
Proof.
  rewrite (Preprocessor_first_placeholder "Total: " " a * b " " EUR" eq_refl eq_refl).
  reflexivity.
Defined.
